(** * AdGuard DNS analytics: the record normaliser of [app.py]

    A shallow embedding of the pure parts of [src/app.py] (the two loaders,
    the top-level-domain extractor, the filter-reason classifier, the
    hostname resolver and the sidebar filters), with the properties the
    specification states about them.

    Conventions of the embedding.
    - A Python [str] is a Rocq [string]; a character stands for the code
      point of the same number (0 to 255).  [str.lower], [str.strip] and
      [str.split] are written out for that range.
    - A Python [int] is a [Z].
    - A Python [dict] with string keys is a [gmap string _].
    - A raised exception is the [inl] branch of a sum, or [None] where a
      single exception is possible.
    - Library code the script calls ([json.loads], pandas) is a parameter
      of the function that calls it. *)

From Stdlib Require Import ZArith NArith Ascii String DecimalString.
From Stdlib Require DecimalPos DecimalZ.
From stdpp Require Import base option list strings gmap fin_maps sorting.

Set Warnings "-register-all".

(** ** Python strings *)

Module PyStr.

(** [str.lower] on one character: the letters A to Z, and the capital
    letters of the Latin-1 block (U+00C0 to U+00DE except the
    multiplication sign U+00D7), move up by 32. *)
Definition lower_char (c : ascii) : ascii :=
  let n := N_of_ascii c in
  if ((65 <=? n) && (n <=? 90)
      || (192 <=? n) && (n <=? 222) && negb (n =? 215))%N
  then ascii_of_N (n + 32)
  else c.

Fixpoint lower (s : string) : string :=
  match s with
  | EmptyString => EmptyString
  | String c s' => String (lower_char c) (lower s')
  end.

(** [str.isspace] on one character. *)
Definition isspace (c : ascii) : bool :=
  let n := N_of_ascii c in
  ((9 <=? n) && (n <=? 13) || (28 <=? n) && (n <=? 32)
   || (n =? 133) || (n =? 160))%N.

Fixpoint lstrip (s : string) : string :=
  match s with
  | EmptyString => EmptyString
  | String c s' => if isspace c then lstrip s' else s
  end.

(** [rstrip] drops the white space at the end: a character is kept when
    something that is kept follows it, or when it is not white space. *)
Fixpoint rstrip (s : string) : string :=
  match s with
  | EmptyString => EmptyString
  | String c s' =>
      match rstrip s' with
      | EmptyString => if isspace c then EmptyString else String c EmptyString
      | r => String c r
      end
  end.

Definition strip (s : string) : string := rstrip (lstrip s).

(** [s.split(sep)] for a separator of one character: the pieces between
    the separators, empty pieces included; never the empty list. *)
Fixpoint split (sep : ascii) (s : string) : list string :=
  match s with
  | EmptyString => [EmptyString]
  | String c s' =>
      if Ascii.eqb c sep then EmptyString :: split sep s'
      else match split sep s' with
           | [] => [String c EmptyString]
           | p :: ps => String c p :: ps
           end
  end.

(** [sep.join(parts)]. *)
Fixpoint join (sep : string) (parts : list string) : string :=
  match parts with
  | [] => EmptyString
  | [p] => p
  | p :: ps => p +:+ sep +:+ join sep ps
  end.

(** [c in s]. *)
Fixpoint contains (c : ascii) (s : string) : bool :=
  match s with
  | EmptyString => false
  | String c' s' => Ascii.eqb c' c || contains c s'
  end.

(** [s.endswith(c)] for one character. *)
Fixpoint endswith (c : ascii) (s : string) : bool :=
  match s with
  | EmptyString => false
  | String c' EmptyString => Ascii.eqb c' c
  | String _ s' => endswith c s'
  end.

(** [bool(s)]: a string is true when it is not empty. *)
Definition truthy (s : string) : bool :=
  match s with EmptyString => false | String _ _ => true end.

(** [str(n)] for an integer: its decimal digits, after a minus sign when
    it is negative.  (Python refuses to convert an integer of more than
    4300 digits; [json.loads] refuses to decode one, so none reaches the
    classifier.) *)
Definition of_int (z : Z) : string := NilZero.string_of_int (Z.to_int z).

End PyStr.

(** ** Python lists *)

Module PyList.

(** [l[i]]: a negative index counts from the end; [None] is IndexError. *)
Definition getitem {A} (l : list A) (i : Z) : option A :=
  let n := Z.of_nat (length l) in
  let j := (if i <? 0 then i + n else i)%Z in
  if ((0 <=? j) && (j <? n))%Z then l !! Z.to_nat j else None.

End PyList.

(** ** The top-level-domain extractor *)

Definition multi_part_tlds : gset string :=
  {[ "co.uk"; "com.au"; "co.nz"; "co.jp"; "com.br";
     "org.uk"; "net.au"; "ac.uk"; "gov.uk"; "3gppnetwork.org" ]}.

(** [extract_top_level_domain].  [None] would be an IndexError of one of the
    subscripts.  [standard] is the statement after the two nested tests,
    which every path that does not return earlier reaches. *)
Definition extract_top_level_domain (host : string) : option string :=
  if negb (PyStr.truthy host) then Some ""
  else
    let parts := PyStr.split "." (PyStr.lower host) in
    let standard :=
      p2 ← PyList.getitem parts (-2);
      p1 ← PyList.getitem parts (-1);
      Some (p2 +:+ "." +:+ p1) in
    if (2 <=? length parts)%nat then
      if (3 <=? length parts)%nat then
        p2 ← PyList.getitem parts (-2);
        p1 ← PyList.getitem parts (-1);
        let potential_multi_tld := p2 +:+ "." +:+ p1 in
        if bool_decide (potential_multi_tld ∈ multi_part_tlds) then
          if (3 <=? length parts)%nat then
            q3 ← PyList.getitem parts (-3);
            q2 ← PyList.getitem parts (-2);
            q1 ← PyList.getitem parts (-1);
            Some (q3 +:+ "." +:+ q2 +:+ "." +:+ q1)
          else standard
        else standard
      else standard
    else Some host.

(** ** Python values *)

(** The values a cell of the [Result] column can hold: what [json.loads]
    builds from JSON text without fractional numbers, and the float NaN
    that pandas stores where a record has no [Result] key. *)
Inductive pyval : Type :=
| PNone
| PNaN
| PBool (b : bool)
| PInt (z : Z)
| PStr (s : string)
| PList (l : list pyval)
| PDict (d : gmap string pyval).

Inductive exn : Type :=
| JSONDecodeError
| TypeError
| KeyError
| AttributeError
| ValueError.

Module PyVal.

(** [bool(v)]. *)
Definition truthy (v : pyval) : bool :=
  match v with
  | PNone => false
  | PNaN => true
  | PBool b => b
  | PInt z => negb (z =? 0)%Z
  | PStr s => PyStr.truthy s
  | PList l => negb (bool_decide (length l = 0))
  | PDict d => negb (bool_decide (size d = 0))
  end.

(** [isinstance(v, dict)]. *)
Definition is_dict (v : pyval) : bool :=
  match v with PDict _ => true | _ => false end.

End PyVal.

(** ** The filter-reason classifier *)

Definition reason_codes : gmap Z string :=
  list_to_map
    [ (0, "Not Filtered");
      (1, "Blocked by Filter");
      (2, "Blocked (Safebrowsing)");
      (3, "Blocked by Rule");
      (4, "Blocked (Parental)");
      (5, "Rewritten");
      (6, "Rewritten (Hosts)");
      (7, "Rewritten (Safe Search)") ]%Z.

(** [reason_codes.get(reason, f"Unknown ({reason})")].  The keys of the
    table are integers: an integer finds its own entry, a boolean the entry
    of 1 or 0 (True == 1 and False == 0 hash alike), [None], NaN and a
    string find nothing, and a list or a dict cannot be hashed. *)
Definition reason_codes_get (reason : pyval) : exn + string :=
  let unknown (text : string) := "Unknown (" +:+ text +:+ ")" in
  match reason with
  | PInt z => inr (default (unknown (PyStr.of_int z)) (reason_codes !! z))
  | PBool b =>
      inr (default (unknown (if b then "True" else "False"))
             (reason_codes !! Z.b2z b))
  | PNone => inr (unknown "None")
  | PNaN => inr (unknown "nan")
  | PStr s => inr (unknown s)
  | PList _ | PDict _ => inl TypeError
  end.

Definition get_filter_reason (result : pyval) : exn + string :=
  if negb (PyVal.truthy result) || negb (PyVal.is_dict result) then
    inr "Not Filtered"
  else
    match result with
    | PDict d =>
        let reason := default (PInt 0) (d !! "Reason") in
        reason_codes_get reason
    | _ => inr "Not Filtered"
    end.

(** ** The derived columns *)

(** The function mapped over the [IP] column to give the [hostname]
    column: [lambda ip: ip_to_hostname.get(ip, ip)]. *)
Definition hostname (ip_to_hostname : gmap string string) (ip : string) : string :=
  default ip (ip_to_hostname !! ip).

(** The function applied to the [Result] column to give the [is_filtered]
    column: [lambda x: x.get("IsFiltered", False) if isinstance(x, dict)
    else False]. *)
Definition is_filtered (x : pyval) : pyval :=
  match x with
  | PDict d => default (PBool false) (d !! "IsFiltered")
  | _ => PBool false
  end.

(** ** The lease loader *)

(** The document of [data/leases.json] as the loader reads it: an object
    whose members are arrays of objects with string values. *)
Definition lease : Type := gmap string string.

(** The body of the loop of [load_leases]. *)
Definition add_lease (ip_to_hostname : gmap string string) (l : lease)
  : gmap string string :=
  let ip := default "" (l !! "ip") in
  let hostname := default "" (l !! "hostname") in
  if PyStr.truthy ip && PyStr.truthy hostname
  then <[ip := hostname]> ip_to_hostname
  else ip_to_hostname.

(** [load_leases], from the decoded document on. *)
Definition load_leases (data : gmap string (list lease)) : gmap string string :=
  foldl add_lease ∅ (default [] (data !! "leases")).

(** ** The query-log loader *)

(** The operations of pandas that [load_querylog] calls, each with the
    exception it may raise: [pd.DataFrame(records)], [df[column]],
    [pd.to_datetime(series)] and [df[column] = series]. *)
Record pandas : Type := Pandas {
  DataFrame : Type;
  Series : Type;
  pd_DataFrame : list pyval → exn + DataFrame;
  df_getitem : DataFrame → string → exn + Series;
  pd_to_datetime : Series → exn + Series;
  df_setitem : DataFrame → string → Series → DataFrame
}.

Section QueryLog.

(** [json.loads], of the standard library, and pandas. *)
Variable json_loads : string → exn + pyval.
Variable pd : pandas.

(** The loop of [load_querylog] over the lines of the file, [records]
    being the list built so far. *)
Fixpoint load_querylog_from (records : list pyval) (lines : list string)
  : exn + list pyval :=
  match lines with
  | [] => inr records
  | line :: rest =>
      let line := PyStr.strip line in
      if PyStr.truthy line then
        match json_loads line with
        | inl e => inl e
        | inr r => load_querylog_from (records ++ [r]) rest
        end
      else load_querylog_from records rest
  end.

(** The list [records] once the loop of [load_querylog] is over (lines 23
    to 28). *)
Definition load_querylog_records (lines : list string) : exn + list pyval :=
  load_querylog_from [] lines.

(** Lines 29 to 31: the frame of the records, with its [T] column parsed. *)
Definition frame_of_records (records : list pyval) : exn + DataFrame pd :=
  match pd_DataFrame pd records with
  | inl e => inl e
  | inr df =>
      match df_getitem pd df "T" with
      | inl e => inl e
      | inr column =>
          match pd_to_datetime pd column with
          | inl e => inl e
          | inr parsed => inr (df_setitem pd df "T" parsed)
          end
      end
  end.

(** [load_querylog], from the lines of the file on. *)
Definition load_querylog (lines : list string) : exn + DataFrame pd :=
  match load_querylog_records lines with
  | inl e => inl e
  | inr records => frame_of_records records
  end.

End QueryLog.

(** The text of a record with a timestamp: an object whose only member is
    [T], a number of nanoseconds. *)
Definition quote : string := String "034"%char "".

Definition record_line (t : string) : string :=
  "{" +:+ quote +:+ "T" +:+ quote +:+ ": " +:+ t +:+ "}".

(** A decoder for the texts of the examples below: on each of them it
    answers as [json.loads] does. *)
Definition json_loads_sample (s : string) : exn + pyval :=
  if String.eqb s "{}" then inr (PDict ∅)
  else if String.eqb s (record_line "1") then inr (PDict {[ "T" := PInt 1 ]})
  else if String.eqb s (record_line "2") then inr (PDict {[ "T" := PInt 2 ]})
  else inl JSONDecodeError.

(** pandas on the records of the examples below, which are objects whose
    [T] is an integer or absent: a frame is the list of its rows, a cell
    that a row lacks stands for NaN, a column that no row has is a
    KeyError, and an integer is the instant that many nanoseconds after
    the start of 1970. *)
Fixpoint dict_records (records : list pyval) : exn + list (gmap string pyval) :=
  match records with
  | [] => inr []
  | PDict d :: rest =>
      match dict_records rest with
      | inl e => inl e
      | inr rows => inr (d :: rows)
      end
  | _ :: _ => inl AttributeError
  end.

Definition has_column (column : string) (row : gmap string pyval) : bool :=
  match row !! column with Some _ => true | None => false end.

Definition instant_cell (cell : pyval) : bool :=
  match cell with PNaN | PInt _ => true | _ => false end.

Definition pandas_sample : pandas := {|
  DataFrame := list (gmap string pyval);
  Series := list pyval;
  pd_DataFrame := dict_records;
  df_getitem df column :=
    if existsb (has_column column) df
    then inr ((λ row, default PNaN (row !! column)) <$> df)
    else inl KeyError;
  pd_to_datetime series :=
    if forallb instant_cell series then inr series else inl ValueError;
  df_setitem df column series :=
    zip_with (λ row cell, <[column := cell]> row) df series
|}.

(** ** The sidebar filters *)

(** A row of the frame after the derived columns were added, with the
    columns the filters read.  The [is_filtered] column is boolean, as it
    is for a log whose [IsFiltered] flags are booleans. *)
Record Row : Type := mkRow {
  row_hostname : string;
  row_top_level_domain : string;
  row_QT : string;
  row_is_filtered : bool
}.

Inductive filter_selection : Type :=
| All
| FilteredOnly
| NotFilteredOnly.

(** [df[df[column].isin(selected)]]. *)
Definition isin_rows (column : Row → string) (selected : list string)
    (df : list Row) : list Row :=
  filter (λ r, column r ∈ selected) df.

Definition filter_clients (selected_clients : list string) (df : list Row) : list Row :=
  if negb (bool_decide (length selected_clients = 0))
  then isin_rows row_hostname selected_clients df
  else df.

Definition filter_domains (selected_domains : list string) (df : list Row) : list Row :=
  if negb (bool_decide (length selected_domains = 0))
  then isin_rows row_top_level_domain selected_domains df
  else df.

Definition filter_query_types (selected_query_types : list string) (df : list Row) : list Row :=
  if negb (bool_decide (length selected_query_types = 0))
  then isin_rows row_QT selected_query_types df
  else df.

Definition filter_status (selection : filter_selection) (df : list Row) : list Row :=
  match selection with
  | FilteredOnly => filter (λ r, row_is_filtered r = true) df
  | NotFilteredOnly => filter (λ r, negb (row_is_filtered r) = true) df
  | All => df
  end.

(** Lines 168 to 211 of [app.py], in order. *)
Definition sidebar_filters (selected_clients selected_domains selected_query_types : list string)
    (selection : filter_selection) (df : list Row) : list Row :=
  let df := filter_clients selected_clients df in
  let df := filter_domains selected_domains df in
  let df := filter_query_types selected_query_types df in
  filter_status selection df.

(** ** The reference definition of the extractor *)

(** The table of multi-part suffixes as the specification lists it. *)
Definition spec_suffix_table : list string :=
  [ "co.uk"; "com.au"; "co.nz"; "co.jp"; "com.br";
    "org.uk"; "net.au"; "ac.uk"; "gov.uk"; "3gppnetwork.org" ].

(** The last [n] labels of a host. *)
Definition last_labels (n : nat) (labels : list string) : list string :=
  drop (length labels - n) labels.

(** The extractor in the words of the specification: the empty string
    gives the empty string, a host without a dot is returned as it is,
    any other host is lower-cased and split on the dot, and gives its last
    three labels when it has at least three and the last two form a suffix
    of the table, and its last two labels otherwise. *)
Definition tld_reference (host : string) : string :=
  if String.eqb host "" then ""
  else if negb (PyStr.contains "." host) then host
  else
    let labels := PyStr.split "." (PyStr.lower host) in
    if (3 <=? length labels)%nat
       && bool_decide (PyStr.join "." (last_labels 2 labels) ∈ spec_suffix_table)
    then PyStr.join "." (last_labels 3 labels)
    else PyStr.join "." (last_labels 2 labels).

(** ** The enumeration of filter labels *)

(** The eight labels of the specification, the label of code [n] at
    position [n]. *)
Definition spec_reason_labels : list string :=
  [ "Not Filtered"; "Blocked by Filter"; "Blocked (Safebrowsing)";
    "Blocked by Rule"; "Blocked (Parental)"; "Rewritten";
    "Rewritten (Hosts)"; "Rewritten (Safe Search)" ].

(** The label the classifier builds for a code outside the table. *)
Definition unknown_label (z : Z) : string :=
  "Unknown (" +:+ PyStr.of_int z +:+ ")".

(** ** Vocabulary of the statements about the loaders *)

(** The binding an entry of the lease array contributes: its [ip] and
    [hostname] when it has both and neither is the empty string. *)
Definition surviving (l : lease) : option (string * string) :=
  ip ← l !! "ip";
  hostname ← l !! "hostname";
  if PyStr.truthy ip && PyStr.truthy hostname then Some (ip, hostname) else None.

(** The last binding of [ip] among the surviving entries, in array order. *)
Definition last_binding (ip : string) (leases : list lease) : option string :=
  snd <$> last (filter (λ p, p.1 = ip) (omap surviving leases)).

(** An entry that binds an address to a hostname: it has both fields and
    neither is the empty string. *)
Definition binds (l : lease) (ip name : string) : Prop :=
  l !! "ip" = Some ip ∧ l !! "hostname" = Some name ∧ ip ≠ "" ∧ name ≠ "".

(** The lease table in the words of the specification: an entry counts
    when it has both fields, and an address gets the hostname of the last
    entry that counts and carries it. *)
Definition has_both_fields (l : lease) : option (string * string) :=
  ip ← l !! "ip";
  hostname ← l !! "hostname";
  Some (ip, hostname).

Definition claimed_binding (ip : string) (leases : list lease) : option string :=
  snd <$> last (filter (λ p, p.1 = ip) (omap has_both_fields leases)).

(** The lines of the file that are not blank, stripped. *)
Definition nonblank_lines (lines : list string) : list string :=
  filter (λ line, PyStr.truthy line = true) (PyStr.strip <$> lines).

(** A lease document: two leases of one address, and an entry without a
    hostname. *)
Definition sample_leases_file : gmap string (list lease) :=
  {[ "leases" :=
       [ {[ "ip" := "10.0.0.5"; "hostname" := "tablet" ]};
         {[ "ip" := "10.0.0.6" ]};
         {[ "ip" := "10.0.0.5"; "hostname" := "phone" ]};
         {[ "ip" := "10.0.0.5"; "hostname" := "" ]} ] ]}.

(** A lease table in which the hostname of one lease is the address of
    another. *)
Definition chained_leases : gmap string string :=
  {[ "10.0.0.1" := "10.0.0.2"; "10.0.0.2" := "laptop" ]}.

(** A frame of three rows. *)
Definition sample_frame : list Row :=
  [ mkRow "laptop" "google.com" "A" false;
    mkRow "phone" "doubleclick.net" "AAAA" true;
    mkRow "laptop" "doubleclick.net" "A" true ].

(** The line feed that ends a line of the file. *)
Definition nl : string := String "010"%char "".

(** A log of two records around a blank line, a log whose second line is
    not JSON, and a log whose records have no timestamp. *)
Definition sample_log : list string :=
  [ record_line "1" +:+ nl; "  " +:+ nl; record_line "2" ].

Definition sample_log_malformed : list string :=
  [ record_line "1" +:+ nl; "oops" +:+ nl ].

Definition sample_log_no_T : list string :=
  [ "{}" +:+ nl; "{}" +:+ nl ].

(** ** The options of the sidebar and the time range *)

(** [Series.unique()]: the values of a column, each once, in the order in
    which they first appear. *)
Fixpoint unique (values : list string) : list string :=
  match values with
  | [] => []
  | v :: rest => v :: filter (λ w, w ≠ v) (unique rest)
  end.

(** [sorted(df[column].unique())], the options of a multiselect: strings
    are ordered by their code points. *)
Definition unique_options (column : Row → string) (df : list Row) : list string :=
  merge_sort String.le (unique (column <$> df)).

Definition unique_clients : list Row → list string := unique_options row_hostname.
Definition unique_domains : list Row → list string := unique_options row_top_level_domain.
Definition unique_query_types : list Row → list string := unique_options row_QT.

(** Lines 168 to 202: the three membership filters, in order. *)
Definition membership_filters (selected_clients selected_domains selected_query_types : list string)
    (df : list Row) : list Row :=
  let df := filter_clients selected_clients df in
  let df := filter_domains selected_domains df in
  filter_query_types selected_query_types df.

(** The counts of the overview: [len(df)], [df["is_filtered"].sum()] (a
    true flag counts one) and [df[column].nunique()]. *)
Definition total_queries (df : list Row) : Z := Z.of_nat (length df).

Definition blocked (df : list Row) : Z :=
  foldr (λ r acc, Z.b2z (row_is_filtered r) + acc)%Z 0%Z df.

Definition nunique (column : Row → string) (df : list Row) : Z :=
  Z.of_nat (length (unique (column <$> df))).

(** [blocked_df = df[df["is_filtered"]]] of the filtering tab. *)
Definition blocked_df (df : list Row) : list Row :=
  filter (λ r, row_is_filtered r = true) df.

(** The choices of the radio button of the time range. *)
Inductive time_range : Type :=
| Last24Hours
| LastWeek
| LastMonth
| Custom.

(** [timedelta(hours=h)] and [timedelta(days=d)]; an instant and a duration
    are numbers of nanoseconds. *)
Definition timedelta_hours (h : Z) : Z := h * 3600 * 10 ^ 9.
Definition timedelta_days (d : Z) : Z := d * 86400 * 10 ^ 9.

Section TimeRange.

(** The rows of the frame, their [T] column (the instant of the query)
    and the calendar day of an instant as [.date()] gives it in the time
    zone of the column, days being numbered in their order. *)
Context {R : Type}.
Variable T : R → Z.
Variable date : Z → Z.

(** [df["T"].min()] and [df["T"].max()] of a frame that has rows. *)
Definition column_min (t : Z) (ts : list Z) : Z := foldl Z.min t ts.
Definition column_max (t : Z) (ts : list Z) : Z := foldl Z.max t ts.

(** The value the date input starts with: [(min_date, max_date)]. *)
Definition default_date_range (df : list R) : list Z :=
  match T <$> df with
  | [] => []
  | t :: ts => [date (column_min t ts); date (column_max t ts)]
  end.

(** Lines 143 to 166.  [now] is the clock reading and [date_range] what
    the date input returns, a tuple of dates. *)
Definition time_filter (range : time_range) (now : Z) (date_range : list Z)
    (df : list R) : list R :=
  match range with
  | Last24Hours =>
      let start_time := now - timedelta_hours 24 in
      filter (λ r, start_time ≤ T r) df
  | LastWeek =>
      let start_time := now - timedelta_days 7 in
      filter (λ r, start_time ≤ T r) df
  | LastMonth =>
      let start_time := now - timedelta_days 30 in
      filter (λ r, start_time ≤ T r) df
  | Custom =>
      if bool_decide (0 < length df)%nat then
        match date_range with
        | [start_date; end_date] =>
            filter (λ r, start_date ≤ date (T r) ∧ date (T r) ≤ end_date) df
        | _ => df
        end
      else df
  end%Z.

End TimeRange.

(** The calendar day of an instant in UTC. *)
Definition utc_date (t : Z) : Z := (t `div` timedelta_days 1)%Z.

(** Three instants: the start of 1970, one hour before the end of its
    second day, and the start of its fourth day. *)
Definition sample_instants : list Z :=
  [ 0; timedelta_hours 47; timedelta_days 3 ]%Z.

(** ** Vocabulary of the further statements *)

(** A string of white space only (the empty string included). *)
Fixpoint only_whitespace (s : string) : bool :=
  match s with
  | EmptyString => true
  | String c s' => PyStr.isspace c && only_whitespace s'
  end.

(** Whether the status selection keeps a row. *)
Definition status_selects (selection : filter_selection) (r : Row) : bool :=
  match selection with
  | All => true
  | FilteredOnly => row_is_filtered r
  | NotFilteredOnly => negb (row_is_filtered r)
  end.

(** What a row must satisfy to pass the four sidebar filters. *)
Definition passes (selected_clients selected_domains selected_query_types : list string)
    (selection : filter_selection) (r : Row) : Prop :=
  (selected_clients = [] ∨ row_hostname r ∈ selected_clients)
  ∧ (selected_domains = [] ∨ row_top_level_domain r ∈ selected_domains)
  ∧ (selected_query_types = [] ∨ row_QT r ∈ selected_query_types)
  ∧ match selection with
    | All => True
    | FilteredOnly => row_is_filtered r = true
    | NotFilteredOnly => row_is_filtered r = false
    end.

(** * Properties *)

(** ** Strings *)

Section StringFacts.

Lemma lower_char_dot c : PyStr.lower_char c = "."%char ↔ c = "."%char.
Proof.
  destruct c as [[] [] [] [] [] [] [] []]; vm_compute; split; congruence.
Qed.

Lemma lower_app s t : PyStr.lower (s +:+ t) = PyStr.lower s +:+ PyStr.lower t.
Proof. induction s as [|c s IH]; simpl; [done | by rewrite IH]. Qed.

Lemma contains_lower s : PyStr.contains "." (PyStr.lower s) = PyStr.contains "." s.
Proof.
  induction s as [|c s IH]; simpl; [done|].
  rewrite IH. f_equal.
  destruct (Ascii.eqb_spec c "."%char) as [->|Hc]; [done|].
  apply Ascii.eqb_neq. by rewrite lower_char_dot.
Qed.

Lemma split_not_nil sep s : PyStr.split sep s ≠ [].
Proof.
  destruct s as [|c s]; simpl; [done|].
  destruct (Ascii.eqb c sep); [done|].
  by destruct (PyStr.split sep s).
Qed.

(** One piece when the separator does not occur, two or more when it does. *)
Lemma split_length_contains sep s :
  (2 <=? length (PyStr.split sep s))%nat = PyStr.contains sep s.
Proof.
  induction s as [|c s IH]; simpl; [done|].
  destruct (Ascii.eqb c sep); simpl.
  - pose proof (split_not_nil sep s). by destruct (PyStr.split sep s).
  - destruct (PyStr.split sep s) as [|p ps]; [done|]. exact IH.
Qed.

Lemma join_cons sep p q ps :
  PyStr.join sep (p :: q :: ps) = p +:+ sep +:+ PyStr.join sep (q :: ps).
Proof. done. Qed.

(** Joining the pieces of a split gives the string back. *)
Lemma join_split sep s : PyStr.join (String sep "") (PyStr.split sep s) = s.
Proof.
  induction s as [|c s IH]; simpl; [done|].
  pose proof (split_not_nil sep s) as Hne.
  destruct (Ascii.eqb_spec c sep) as [->|Hc].
  - destruct (PyStr.split sep s) as [|p ps]; [done|]. simpl in *. by rewrite IH.
  - destruct (PyStr.split sep s) as [|p ps]; [done|].
    destruct ps as [|q ps]; simpl in *; by rewrite <- IH.
Qed.


Lemma split_lower s :
  PyStr.split "." (PyStr.lower s) = PyStr.lower <$> PyStr.split "." s.
Proof.
  induction s as [|c s IH]; simpl; [done|].
  destruct (Ascii.eqb_spec c "."%char) as [->|Hc]; simpl.
  - by rewrite IH.
  - assert (Ascii.eqb (PyStr.lower_char c) "." = false) as ->
      by by rewrite Ascii.eqb_neq, lower_char_dot.
    rewrite IH. pose proof (split_not_nil "." s).
    by destruct (PyStr.split "." s).
Qed.


Lemma append_not_empty s c t : s +:+ String c t ≠ "".
Proof. by destruct s. Qed.

Lemma endswith_snoc c s : PyStr.endswith c (s +:+ String c "") = true.
Proof.
  induction s as [|c' s IH]; simpl; [apply Ascii.eqb_refl|].
  by destruct (s +:+ String c "") eqn:E; [destruct s|].
Qed.

End StringFacts.

(** ** Subscripts from the end *)

Section ListFacts.
Context {A : Type}.
Implicit Types l pre suf : list A.

(** A negative subscript within the last [length suf] items reads [suf]. *)
Lemma getitem_neg_app pre suf (i : nat) :
  (i < length suf)%nat →
  PyList.getitem (pre ++ suf) (- Z.of_nat (length suf - i)) = suf !! i.
Proof.
  intros Hi. unfold PyList.getitem. rewrite length_app.
  set (k := Z.of_nat (length suf - i)).
  set (n := Z.of_nat (length pre + length suf)).
  assert (0 < k ≤ n)%Z as Hk by lia.
  assert ((- k <? 0)%Z = true) as -> by (apply Z.ltb_lt; lia).
  assert ((0 <=? - k + n)%Z = true) as -> by (apply Z.leb_le; lia).
  assert ((- k + n <? n)%Z = true) as -> by (apply Z.ltb_lt; lia).
  simpl. replace (Z.to_nat (- k + n)) with (length pre + i)%nat by lia.
  rewrite lookup_app_r by lia. f_equal. lia.
Qed.

Lemma last_labels_app n pre suf :
  length suf = n → drop (length (pre ++ suf) - n) (pre ++ suf) = suf.
Proof.
  intros <-. rewrite length_app, Nat.add_sub. by rewrite drop_app_length.
Qed.

Lemma list_snoc2 l : (2 ≤ length l)%nat → ∃ pre a b, l = pre ++ [a; b].
Proof.
  intros Hl. destruct l as [|x l] using rev_ind; [simpl in Hl; lia|].
  destruct l as [|y l _] using rev_ind.
  - simpl in Hl. lia.
  - exists l, y, x. by rewrite <- app_assoc.
Qed.

Lemma getitem_last pre a : PyList.getitem (pre ++ [a]) (-1) = Some a.
Proof. exact (getitem_neg_app pre [a] 0 (Nat.lt_0_succ _)). Qed.

Lemma getitem_last2 pre a b : PyList.getitem (pre ++ [a; b]) (-2) = Some a.
Proof. exact (getitem_neg_app pre [a; b] 0 (Nat.lt_0_succ _)). Qed.

Lemma getitem_last3 pre a b c : PyList.getitem (pre ++ [a; b; c]) (-3) = Some a.
Proof. exact (getitem_neg_app pre [a; b; c] 0 (Nat.lt_0_succ _)). Qed.

End ListFacts.

(** ** The extractor, by the shape of the label list *)

Section Extractor.

Lemma truthy_true s : PyStr.truthy s = true ↔ s ≠ "".
Proof. by destruct s. Qed.

Lemma in_suffix_table x : x ∈ multi_part_tlds ↔ x ∈ spec_suffix_table.
Proof.
  unfold multi_part_tlds, spec_suffix_table.
  rewrite !elem_of_union, !elem_of_singleton, !elem_of_cons, elem_of_nil.
  tauto.
Qed.

(** A host with a dot: the labels end in [a; b]. *)
Lemma extract_two host a b :
  host ≠ "" →
  PyStr.split "." (PyStr.lower host) = [a; b] →
  extract_top_level_domain host = Some (a +:+ "." +:+ b).
Proof.
  intros Hne Hsplit. unfold extract_top_level_domain.
  apply truthy_true in Hne. by rewrite Hne, Hsplit.
Qed.

Lemma extract_three host pre c a b :
  host ≠ "" →
  PyStr.split "." (PyStr.lower host) = pre ++ [c; a; b] →
  extract_top_level_domain host =
    Some (if bool_decide (a +:+ "." +:+ b ∈ multi_part_tlds)
          then c +:+ "." +:+ a +:+ "." +:+ b
          else a +:+ "." +:+ b).
Proof.
  intros Hne Hsplit. unfold extract_top_level_domain.
  apply truthy_true in Hne. rewrite Hne, Hsplit. simpl negb. cbv iota.
  assert (length (pre ++ [c; a; b]) = S (S (S (length pre)))) as ->
    by (rewrite length_app; simpl; lia).
  simpl Nat.leb. cbv iota zeta.
  rewrite (getitem_last3 pre c a b).
  replace (pre ++ [c; a; b]) with ((pre ++ [c]) ++ [a; b]) by by rewrite <- app_assoc.
  rewrite (getitem_last2 (pre ++ [c]) a b).
  replace ((pre ++ [c]) ++ [a; b]) with ((pre ++ [c; a]) ++ [b]) by by rewrite <- !app_assoc.
  rewrite (getitem_last (pre ++ [c; a]) b).
  simpl. by destruct (bool_decide _).
Qed.

Lemma extract_no_dot host :
  PyStr.contains "." host = false → extract_top_level_domain host = Some host.
Proof.
  intros Hc. unfold extract_top_level_domain.
  destruct host as [|c host]; [done|]. simpl negb. cbv iota zeta.
  by rewrite split_length_contains, contains_lower, Hc.
Qed.

Lemma reference_two host a b :
  PyStr.split "." (PyStr.lower host) = [a; b] →
  tld_reference host = a +:+ "." +:+ b.
Proof.
  intros Hsplit. unfold tld_reference.
  destruct host as [|c host]; [done|]. simpl String.eqb. cbv iota.
  rewrite <- contains_lower, <- split_length_contains, Hsplit. simpl.
  done.
Qed.

Lemma reference_three host pre c a b :
  PyStr.split "." (PyStr.lower host) = pre ++ [c; a; b] →
  tld_reference host =
    if bool_decide (a +:+ "." +:+ b ∈ multi_part_tlds)
    then c +:+ "." +:+ a +:+ "." +:+ b
    else a +:+ "." +:+ b.
Proof.
  intros Hsplit. unfold tld_reference.
  destruct host as [|c0 host].
  { apply (f_equal length) in Hsplit. rewrite length_app in Hsplit.
    simpl in Hsplit. lia. }
  simpl String.eqb. cbv iota.
  rewrite <- contains_lower, <- split_length_contains, Hsplit. cbv zeta.
  pose proof (last_labels_app 3 pre [c; a; b] eq_refl) as H3.
  pose proof (last_labels_app 2 (pre ++ [c]) [a; b] eq_refl) as H2.
  rewrite <- app_assoc in H2. simpl in H2.
  unfold last_labels. rewrite H3, H2.
  assert (length (pre ++ [c; a; b]) = S (S (S (length pre)))) as ->
    by (rewrite length_app; simpl; lia).
  simpl. rewrite (bool_decide_ext _ _ (in_suffix_table _)).
  by destruct (bool_decide _).
Qed.


(** The three shapes of a result. *)
Lemma extract_shape host :
  host = "" ∧ extract_top_level_domain host = Some ""
  ∨ host ≠ "" ∧ extract_top_level_domain host = Some host
  ∨ ∃ x y, extract_top_level_domain host = Some (x +:+ "." +:+ y).
Proof.
  destruct (decide (host = "")) as [->|Hne]; [by left|]. right.
  destruct (PyStr.contains "." host) eqn:Hc.
  - right.
    rewrite <- contains_lower, <- split_length_contains in Hc.
    apply Nat.leb_le, list_snoc2 in Hc as (pre & a & b & Hsplit).
    destruct pre as [|c pre _] using rev_ind.
    + exists a, b. by apply extract_two.
    + rewrite <- app_assoc in Hsplit. simpl in Hsplit.
      rewrite (extract_three host pre c a b) by done.
      destruct (bool_decide _); eauto.
  - left. split; [done|]. by apply extract_no_dot.
Qed.

End Extractor.



(** ** Claims about the extractor *)

(** C4.  The extractor always returns, and what it returns is the value of
    the reference definition [tld_reference] written after the
    specification; in particular a host of exactly two labels is returned
    lower-cased, whatever its labels are. *)
Theorem extract_top_level_domain_refines_reference (host : string) :
  extract_top_level_domain host = Some (tld_reference host)
  ∧ (length (PyStr.split "." host) = 2 →
     extract_top_level_domain host = Some (PyStr.lower host)).
Proof.
  split.
  - destruct (PyStr.contains "." host) eqn:Hc.
    + assert (host ≠ "") as Hne by (by intros ->).
      rewrite <- contains_lower, <- split_length_contains in Hc.
      apply Nat.leb_le, list_snoc2 in Hc as (pre & a & b & Hsplit).
      destruct pre as [|c pre _] using rev_ind.
      * by rewrite (extract_two host a b), (reference_two host a b).
      * rewrite <- app_assoc in Hsplit. simpl in Hsplit.
        by rewrite (extract_three host pre c a b),
             (reference_three host pre c a b).
    + rewrite extract_no_dot by done. f_equal.
      unfold tld_reference. rewrite Hc. by destruct host.
  - intros Hlen.
    assert (host ≠ "") as Hne by (intros ->; simpl in Hlen; lia).
    pose proof (join_split "." (PyStr.lower host)) as Hjoin.
    pose proof (split_lower host) as Hsplit.
    destruct (PyStr.split "." host) as [|a [|b [|c l]]]; simplify_eq/=.
    rewrite Hsplit in Hjoin. simpl in Hjoin. rewrite <- Hjoin.
    by apply extract_two.
Qed.

Lemma extract_top_level_domain_refines_reference_witness :
  length (PyStr.split "." "Co.UK") = 2
  ∧ extract_top_level_domain "Co.UK" = Some "co.uk".
Proof.
  split; [reflexivity|].
  apply (proj2 (extract_top_level_domain_refines_reference "Co.UK")).
  reflexivity.
Defined.

(** C7.  The extractor returns a string for every host, and that string is
    empty exactly when the host is empty. *)
Theorem top_level_domain_empty_iff (host : string) :
  ∃ tld, extract_top_level_domain host = Some tld ∧ (tld = "" ↔ host = "").
Proof.
  destruct (extract_shape host) as [[-> H]|[[Hne H]|(x & y & H)]].
  - by exists "".
  - by exists host.
  - exists (x +:+ "." +:+ y). split; [done|]. split.
    + intros Hx. by apply append_not_empty in Hx.
    + intros ->. injection H as H. symmetry in H.
      by apply append_not_empty in H.
Qed.


(** ** The classifier *)

Section Classifier.

Lemma reason_codes_lookup (z : Z) :
  reason_codes !! z =
    if decide (0 ≤ z ≤ 7)%Z then spec_reason_labels !! Z.to_nat z else None.
Proof.
  unfold reason_codes. cbn [list_to_map foldr uncurry fst snd].
  destruct (decide (0 ≤ z ≤ 7)%Z) as [Hz|Hz].
  - assert (z ∈ [0; 1; 2; 3; 4; 5; 6; 7]%Z) as Hin.
    { rewrite !elem_of_cons. lia. }
    rewrite !elem_of_cons, elem_of_nil in Hin.
    destruct Hin as [->|[->|[->|[->|[->|[->|[->|[->|[]]]]]]]]]; reflexivity.
  - rewrite !lookup_insert_ne by lia. apply lookup_empty.
Qed.

Lemma reason_codes_get_int (z : Z) :
  reason_codes_get (PInt z) =
    inr (if decide (0 ≤ z ≤ 7)%Z
         then default "" (spec_reason_labels !! Z.to_nat z)
         else unknown_label z).
Proof.
  unfold reason_codes_get. rewrite reason_codes_lookup.
  destruct (decide _) as [Hz|Hz]; [|done].
  destruct (spec_reason_labels !! Z.to_nat z) eqn:E; [done|].
  apply lookup_ge_None in E. simpl in E. lia.
Qed.

Lemma get_filter_reason_dict d :
  get_filter_reason (PDict d) =
    match d !! "Reason" with
    | Some reason => reason_codes_get reason
    | None => inr "Not Filtered"
    end.
Proof.
  unfold get_filter_reason. simpl.
  destruct (d !! "Reason") as [reason|] eqn:E; simpl.
  - rewrite bool_decide_eq_false_2; [done|].
    intros Hsize%map_size_empty_iff. by rewrite Hsize, lookup_empty in E.
  - by destruct (bool_decide _).
Qed.

Lemma get_filter_reason_not_dict v :
  PyVal.is_dict v = false → get_filter_reason v = inr "Not Filtered".
Proof.
  intros Hv. unfold get_filter_reason. rewrite Hv.
  rewrite orb_true_r. done.
Qed.

Lemma label_in_range (z : Z) :
  (0 ≤ z ≤ 7)%Z → ∃ label, spec_reason_labels !! Z.to_nat z = Some label.
Proof.
  intros Hz. apply lookup_lt_is_Some. simpl. lia.
Qed.

Lemma unknown_label_not_label (z : Z) : unknown_label z ∉ spec_reason_labels.
Proof.
  unfold unknown_label, spec_reason_labels.
  change ("Unknown (" +:+ ?x) with (String "U" ("nknown (" +:+ x)).
  rewrite !elem_of_cons, elem_of_nil. intros H.
  repeat (destruct H as [H|H]; [discriminate H|]). done.
Qed.

End Classifier.

(** ** Claims about the classifier *)

(** C5.  A result object whose code is an integer from 0 to 7 gets the
    label of the fixed table; with any other integer code it gets the label
    [Unknown (<code>)], the code written in decimal; a result object
    without a code, and any value that is not an object (None, the NaN of
    an absent cell, a boolean, a number, a string, a list), gets
    [Not Filtered].  No case raises. *)
Theorem get_filter_reason_table :
  Forall (λ '(z, label), ∀ d : gmap string pyval,
            d !! "Reason" = Some (PInt z) →
            get_filter_reason (PDict d) = inr label)
    [ (0, "Not Filtered"); (1, "Blocked by Filter");
      (2, "Blocked (Safebrowsing)"); (3, "Blocked by Rule");
      (4, "Blocked (Parental)"); (5, "Rewritten");
      (6, "Rewritten (Hosts)"); (7, "Rewritten (Safe Search)") ]%Z
  ∧ (∀ (d : gmap string pyval) (z : Z),
       d !! "Reason" = Some (PInt z) → (z < 0 ∨ 7 < z)%Z →
       get_filter_reason (PDict d) = inr ("Unknown (" +:+ PyStr.of_int z +:+ ")"))
  ∧ (∀ d : gmap string pyval,
       d !! "Reason" = None → get_filter_reason (PDict d) = inr "Not Filtered")
  ∧ (∀ v : pyval,
       PyVal.is_dict v = false → get_filter_reason v = inr "Not Filtered").
Proof.
  repeat split.
  - repeat constructor; intros d Hd;
      by rewrite get_filter_reason_dict, Hd.
  - intros d z Hd Hz. rewrite get_filter_reason_dict, Hd, reason_codes_get_int.
    by rewrite decide_False by lia.
  - intros d Hd. by rewrite get_filter_reason_dict, Hd.
  - apply get_filter_reason_not_dict.
Qed.

Lemma get_filter_reason_table_witness :
  get_filter_reason (PDict {[ "Reason" := PInt 9 ]}) = inr "Unknown (9)"
  ∧ get_filter_reason (PDict {[ "Reason" := PInt (-3) ]}) = inr "Unknown (-3)"
  ∧ get_filter_reason (PDict {[ "IsFiltered" := PBool true ]}) = inr "Not Filtered"
  ∧ get_filter_reason PNone = inr "Not Filtered".
Proof.
  destruct get_filter_reason_table as (_ & Hunknown & Hmissing & Hother).
  split; [|split; [|split]].
  - apply (Hunknown {[ "Reason" := PInt 9 ]} 9%Z); [reflexivity | lia].
  - apply (Hunknown {[ "Reason" := PInt (-3) ]} (-3)%Z); [reflexivity | lia].
  - apply (Hmissing {[ "IsFiltered" := PBool true ]}). reflexivity.
  - apply (Hother PNone). reflexivity.
Defined.

(** C2, as the specification states it, fails: the code 8 gives a label
    that is none of the eight. *)
Lemma filter_status_outside_enumeration :
  get_filter_reason (PDict {[ "Reason" := PInt 8 ]}) = inr "Unknown (8)"
  ∧ "Unknown (8)" ∉ spec_reason_labels.
Proof.
  split; [reflexivity|].
  unfold spec_reason_labels. rewrite !elem_of_cons, elem_of_nil.
  intros H. repeat (destruct H as [H|H]; [discriminate H|]). done.
Qed.

(** C2, amended.  For a result that is None, or an object whose code is
    absent or an integer, the classifier returns a string (it neither
    raises nor returns None).  That string is [Not Filtered] when the
    result is None or has no code; it is the label of the code, one of
    the eight, when the code is from 0 to 7; and it is [Unknown (<code>)],
    none of the eight, for any other integer. *)
Theorem filter_status_label (result : pyval) :
  (result = PNone
   ∨ ∃ d, result = PDict d
          ∧ (d !! "Reason" = None ∨ ∃ z, d !! "Reason" = Some (PInt z))) →
  ∃ status : string,
    get_filter_reason result = inr status
    ∧ (result = PNone ∨ (∃ d, result = PDict d ∧ d !! "Reason" = None) →
       status = "Not Filtered" ∧ status ∈ spec_reason_labels)
    ∧ (∀ d z, result = PDict d → d !! "Reason" = Some (PInt z) →
              (0 ≤ z ≤ 7)%Z →
              spec_reason_labels !! Z.to_nat z = Some status
              ∧ status ∈ spec_reason_labels)
    ∧ (∀ d z, result = PDict d → d !! "Reason" = Some (PInt z) →
              (z < 0 ∨ 7 < z)%Z →
              status = "Unknown (" +:+ PyStr.of_int z +:+ ")"
              ∧ status ∉ spec_reason_labels).
Proof.
  intros [->|(d & -> & [Hd|[z Hd]])].
  - exists "Not Filtered". split; [done|]. split; [|by split].
    intros _. split; [done | apply list_elem_of_here].
  - exists "Not Filtered". rewrite get_filter_reason_dict, Hd.
    split; [done|]. split; [|split].
    + intros _. split; [done | apply list_elem_of_here].
    + intros d' z [= <-]. by rewrite Hd.
    + intros d' z [= <-]. by rewrite Hd.
  - rewrite get_filter_reason_dict, Hd, reason_codes_get_int.
    destruct (decide (0 ≤ z ≤ 7)%Z) as [Hz|Hz].
    + destruct (label_in_range z Hz) as [label Hlabel].
      exists label. rewrite Hlabel. split; [done|]. split; [|split].
      * intros [?|(d' & [= <-] & Hnone)]; [done|]. by rewrite Hd in Hnone.
      * intros d' z' [= <-]. rewrite Hd. intros [= <-] _.
        split; [done|]. by apply list_elem_of_lookup_2 in Hlabel.
      * intros d' z' [= <-]. rewrite Hd. intros [= <-] ?. lia.
    + exists (unknown_label z). split; [done|]. split; [|split].
      * intros [?|(d' & [= <-] & Hnone)]; [done|]. by rewrite Hd in Hnone.
      * intros d' z' [= <-]. rewrite Hd. intros [= <-] ?. lia.
      * intros d' z' [= <-]. rewrite Hd. intros [= <-] _.
        split; [done|]. apply unknown_label_not_label.
Qed.

Lemma filter_status_label_witness :
  get_filter_reason (PDict {[ "Reason" := PInt 42 ]}) = inr "Unknown (42)"
  ∧ "Unknown (42)" ∉ spec_reason_labels.
Proof.
  destruct (filter_status_label (PDict {[ "Reason" := PInt 42 ]}))
    as (status & Hstatus & _ & _ & Hunknown).
  - right. exists {[ "Reason" := PInt 42 ]}. split; [reflexivity|].
    right. exists 42%Z. reflexivity.
  - destruct (Hunknown {[ "Reason" := PInt 42 ]} 42%Z) as [Heq Hnot];
      [reflexivity | reflexivity | lia |].
    rewrite Hstatus. subst status. split; [reflexivity | exact Hnot].
Defined.

(** C9.  The [is_filtered] cell is the value stored under [IsFiltered] in
    the result object, whatever it is, so the boolean flag when there is
    one; it is False when the object has no such key and when the result is
    not an object: None, the NaN of an absent cell, or any other value. *)
Theorem is_filtered_reads_flag :
  (∀ (d : gmap string pyval) (flag : pyval),
     d !! "IsFiltered" = Some flag → is_filtered (PDict d) = flag)
  ∧ (∀ (d : gmap string pyval) (b : bool),
       d !! "IsFiltered" = Some (PBool b) → is_filtered (PDict d) = PBool b)
  ∧ (∀ d : gmap string pyval,
       d !! "IsFiltered" = None → is_filtered (PDict d) = PBool false)
  ∧ (∀ v : pyval, PyVal.is_dict v = false → is_filtered v = PBool false)
  ∧ is_filtered PNone = PBool false
  ∧ is_filtered PNaN = PBool false.
Proof.
  repeat split.
  - intros d flag Hd. simpl. by rewrite Hd.
  - intros d b Hd. simpl. by rewrite Hd.
  - intros d Hd. simpl. by rewrite Hd.
  - by intros [].
Qed.

Lemma is_filtered_reads_flag_witness :
  is_filtered (PDict {[ "Reason" := PInt 3; "IsFiltered" := PBool true ]})
    = PBool true
  ∧ is_filtered (PDict {[ "Reason" := PInt 0 ]}) = PBool false
  ∧ is_filtered (PStr "blocked") = PBool false.
Proof.
  destruct is_filtered_reads_flag as (_ & Hflag & Hmissing & Hother & _).
  split; [|split].
  - apply (Hflag {[ "Reason" := PInt 3; "IsFiltered" := PBool true ]} true).
    reflexivity.
  - apply (Hmissing {[ "Reason" := PInt 0 ]}). reflexivity.
  - apply (Hother (PStr "blocked")). reflexivity.
Defined.

(** ** The resolver *)

(** C3, as the specification states it, fails: where a hostname of the
    lease table is itself the address of another lease, resolving twice
    does not give what resolving once gives. *)
Lemma hostname_not_idempotent :
  hostname chained_leases "10.0.0.1" = "10.0.0.2"
  ∧ hostname chained_leases (hostname chained_leases "10.0.0.1") = "laptop"
  ∧ hostname chained_leases (hostname chained_leases "10.0.0.1")
    ≠ hostname chained_leases "10.0.0.1".
Proof. repeat split; [reflexivity..|discriminate]. Qed.

(** C3, amended.  The resolver returns the mapped hostname when the
    address is a key of the lease table and the address itself otherwise;
    it is a total function of its two arguments.  Resolving the result
    again gives the same value exactly when the result is not a key of the
    table or is mapped to itself; so it does whenever the address is not a
    key. *)
Theorem hostname_lookup_or_self :
  (∀ (leases : gmap string string) (ip name : string),
     leases !! ip = Some name → hostname leases ip = name)
  ∧ (∀ (leases : gmap string string) (ip : string),
       leases !! ip = None → hostname leases ip = ip)
  ∧ (∀ (leases : gmap string string) (ip : string),
       hostname leases (hostname leases ip) = hostname leases ip
       ↔ leases !! hostname leases ip = None
         ∨ leases !! hostname leases ip = Some (hostname leases ip))
  ∧ (∀ (leases : gmap string string) (ip : string),
       leases !! ip = None →
       hostname leases (hostname leases ip) = hostname leases ip).
Proof.
  assert (∀ (leases : gmap string string) ip,
            hostname leases (hostname leases ip) = hostname leases ip
            ↔ leases !! hostname leases ip = None
              ∨ leases !! hostname leases ip = Some (hostname leases ip)) as Hiff.
  { intros leases ip. generalize (hostname leases ip). intros name.
    unfold hostname. destruct (leases !! name) as [name'|]; simpl.
    - split; [intros ->; by right | by intros [|[= ->]]].
    - split; [by left | done]. }
  repeat split.
  - intros leases ip name H. unfold hostname. by rewrite H.
  - intros leases ip H. unfold hostname. by rewrite H.
  - apply Hiff.
  - apply Hiff.
  - intros leases ip H. apply Hiff. left.
    unfold hostname at 1. by rewrite H.
Qed.

Lemma hostname_lookup_or_self_witness :
  hostname chained_leases "10.0.0.2" = "laptop"
  ∧ hostname chained_leases "10.0.0.9" = "10.0.0.9"
  ∧ hostname chained_leases (hostname chained_leases "10.0.0.9")
    = hostname chained_leases "10.0.0.9".
Proof.
  destruct hostname_lookup_or_self as (Hkey & Hself & _ & Htwice).
  split; [|split].
  - apply (Hkey chained_leases "10.0.0.2" "laptop"). reflexivity.
  - apply (Hself chained_leases "10.0.0.9"). reflexivity.
  - apply (Htwice chained_leases "10.0.0.9"). reflexivity.
Defined.

(** ** The lease loader *)

Section Leases.

Lemma add_lease_surviving m l :
  add_lease m l =
    match surviving l with
    | Some (ip, name) => <[ip := name]> m
    | None => m
    end.
Proof.
  unfold add_lease, surviving.
  destruct (l !! "ip") as [ip|], (l !! "hostname") as [name|]; simpl;
    try done.
  - by destruct (PyStr.truthy ip && PyStr.truthy name).
  - by destruct ip.
Qed.

(** The loop, from any table [m] it starts with. *)
Lemma foldl_add_lease ip m leases :
  foldl add_lease m leases !! ip =
    match last_binding ip leases with
    | Some name => Some name
    | None => m !! ip
    end.
Proof.
  unfold last_binding.
  induction leases as [|l leases IH] using rev_ind; [done|].
  rewrite foldl_app. simpl. rewrite add_lease_surviving.
  rewrite omap_app, filter_app. simpl.
  destruct (surviving l) as [[ip' name]|]; simpl.
  - destruct (decide (ip' = ip)) as [->|Hne].
    + rewrite filter_cons_True by done. rewrite filter_nil, last_snoc. simpl.
      apply lookup_insert_eq.
    + rewrite filter_cons_False by done. rewrite filter_nil, app_nil_r.
      by rewrite lookup_insert_ne.
  - rewrite filter_nil, app_nil_r. done.
Qed.

Lemma surviving_Some l ip name :
  surviving l = Some (ip, name)
  ↔ l !! "ip" = Some ip ∧ l !! "hostname" = Some name ∧ ip ≠ "" ∧ name ≠ "".
Proof.
  unfold surviving.
  destruct (l !! "ip") as [ip'|], (l !! "hostname") as [name'|]; simpl;
    try (split; [done | by intros (? & ? & _)]).
  destruct ip' as [|c ip'], name' as [|c' name']; simpl;
    (split; [intros [= <- <-]; by repeat split
            | intros ([= <-] & [= <-] & ? & ?); done]).
Qed.

Lemma last_binding_snoc ip leases l :
  last_binding ip (leases ++ [l]) =
    match surviving l with
    | Some (ip', name) =>
        if decide (ip' = ip) then Some name else last_binding ip leases
    | None => last_binding ip leases
    end.
Proof.
  unfold last_binding. rewrite omap_app, filter_app. simpl.
  destruct (surviving l) as [[ip' name]|]; simpl.
  - destruct (decide (ip' = ip)) as [->|Hne].
    + rewrite filter_cons_True by done. by rewrite filter_nil, last_snoc.
    + rewrite filter_cons_False by done. by rewrite filter_nil, app_nil_r.
  - by rewrite filter_nil, app_nil_r.
Qed.

(** The last binding of an address is the hostname of the last entry that
    binds it. *)
Lemma last_binding_spec ip leases name :
  last_binding ip leases = Some name
  ↔ ∃ pre l post,
      leases = pre ++ l :: post
      ∧ binds l ip name
      ∧ Forall (λ l', ∀ name', ¬ binds l' ip name') post.
Proof.
  induction leases as [|l0 leases IH] using rev_ind.
  - split; [done|]. intros (pre & l & post & H & _). by destruct pre.
  - rewrite last_binding_snoc.
    assert (∀ pre l post,
              leases ++ [l0] = pre ++ l :: post →
              post = [] ∧ l = l0 ∧ pre = leases
              ∨ ∃ post', post = post' ++ [l0] ∧ leases = pre ++ l :: post')
      as Hsplit.
    { intros pre l post H. destruct post as [|x post _] using rev_ind.
      - left. apply app_inj_tail in H as [-> ->]. done.
      - right. exists post.
        rewrite app_comm_cons, app_assoc in H.
        by apply app_inj_tail in H as [-> ->]. }
    destruct (surviving l0) as [[ip' name0]|] eqn:Hs.
    + apply surviving_Some in Hs. fold (binds l0 ip' name0) in Hs.
      destruct (decide (ip' = ip)) as [->|Hne].
      * split.
        -- intros [= ->]. exists leases, l0, []. split; [done|]. split; [done|].
           constructor.
        -- intros (pre & l & post & H & Hl & Hpost).
           destruct (Hsplit _ _ _ H) as [(-> & -> & ->)|(post' & -> & ->)].
           ++ destruct Hs as (_ & Hn & _), Hl as (_ & Hn' & _). congruence.
           ++ apply Forall_app in Hpost as [_ [Hno _]%Forall_cons].
              by destruct (Hno name0).
      * rewrite IH. split.
        -- intros (pre & l & post & -> & Hl & Hpost).
           exists pre, l, (post ++ [l0]). rewrite <- app_assoc.
           split; [done|]. split; [done|]. apply Forall_app. split; [done|].
           constructor; [|done]. intros name' (Hip & _).
           destruct Hs as (Hip' & _). congruence.
        -- intros (pre & l & post & H & Hl & Hpost).
           destruct (Hsplit _ _ _ H) as [(-> & -> & ->)|(post' & -> & ->)].
           ++ destruct Hs as (Hip' & _), Hl as (Hip & _). congruence.
           ++ apply Forall_app in Hpost as [Hpost _].
              exists pre, l, post'. by split.
    + rewrite IH. split.
      * intros (pre & l & post & -> & Hl & Hpost).
        exists pre, l, (post ++ [l0]). rewrite <- app_assoc.
        split; [done|]. split; [done|]. apply Forall_app. split; [done|].
        constructor; [|done]. intros name' Hb. unfold binds in Hb.
        apply surviving_Some in Hb. congruence.
      * intros (pre & l & post & H & Hl & Hpost).
        destruct (Hsplit _ _ _ H) as [(-> & -> & ->)|(post' & -> & ->)].
        -- unfold binds in Hl. apply surviving_Some in Hl. congruence.
        -- apply Forall_app in Hpost as [Hpost _].
           exists pre, l, post'. by split.
Qed.

End Leases.

(** C8, as the specification states it, fails: an entry whose hostname
    is the empty string has both fields, so by the claim it is the last
    entry of its address and the table should hold the empty string; the
    loader drops it and keeps the hostname of the entry before. *)
Lemma load_leases_drops_empty_hostname :
  claimed_binding "10.0.0.5" (default [] (sample_leases_file !! "leases"))
  = Some ""
  ∧ load_leases sample_leases_file !! "10.0.0.5" = Some "phone".
Proof. split; reflexivity. Qed.

(** C8, amended.  An entry is discarded when it lacks [ip] or [hostname]
    or when either is the empty string: it leaves the table as it is.
    Any other entry writes its hostname under its address.  So the table
    maps an address to a hostname exactly when that is the hostname of the
    last entry of the array, among those not discarded, that carries the
    address; the array is empty when the document has no [leases]. *)
Theorem load_leases_last_write_wins :
  (∀ (data : gmap string (list lease)) (ip name : string),
     load_leases data !! ip = Some name
     ↔ ∃ pre l post,
         default [] (data !! "leases") = pre ++ l :: post
         ∧ binds l ip name
         ∧ Forall (λ l', ∀ name', ¬ binds l' ip name') post)
  ∧ (∀ (m : gmap string string) (l : lease),
       l !! "ip" = None ∨ l !! "hostname" = None
       ∨ l !! "ip" = Some "" ∨ l !! "hostname" = Some "" →
       add_lease m l = m)
  ∧ (∀ (m : gmap string string) (l : lease) (ip name : string),
       binds l ip name → add_lease m l = <[ip := name]> m).
Proof.
  split; [|split].
  - intros data ip name. unfold load_leases.
    rewrite foldl_add_lease, lookup_empty, <- last_binding_spec.
    by destruct (last_binding _ _).
  - intros m l Hdiscard. rewrite add_lease_surviving.
    destruct (surviving l) as [[ip name]|] eqn:Hs; [|done].
    apply surviving_Some in Hs as (Hip & Hname & Hne1 & Hne2).
    destruct Hdiscard as [Hd|[Hd|[Hd|Hd]]]; congruence.
  - intros m l ip name Hb. rewrite add_lease_surviving.
    unfold binds in Hb. apply surviving_Some in Hb. by rewrite Hb.
Qed.

Lemma load_leases_last_write_wins_witness :
  load_leases sample_leases_file !! "10.0.0.5" = Some "phone"
  ∧ add_lease chained_leases {[ "ip" := "10.0.0.5"; "hostname" := "" ]}
    = chained_leases
  ∧ add_lease ∅ {[ "ip" := "10.0.0.5"; "hostname" := "phone" ]}
    = {[ "10.0.0.5" := "phone" ]}.
Proof.
  destruct load_leases_last_write_wins as (Hlast & Hdiscard & Hboth).
  split; [|split].
  - apply (Hlast sample_leases_file "10.0.0.5" "phone").
    exists [ {[ "ip" := "10.0.0.5"; "hostname" := "tablet" ]};
             {[ "ip" := "10.0.0.6" ]} ],
           {[ "ip" := "10.0.0.5"; "hostname" := "phone" ]},
           [ {[ "ip" := "10.0.0.5"; "hostname" := "" ]} ].
    split; [reflexivity|]. split.
    + unfold binds. split; [reflexivity|]. split; [reflexivity|].
      split; discriminate.
    + constructor; [|constructor].
      intros name' (_ & Hname & _ & Hne). apply Hne.
      vm_compute in Hname. congruence.
  - apply (Hdiscard chained_leases {[ "ip" := "10.0.0.5"; "hostname" := "" ]}).
    right. right. right. reflexivity.
  - apply (Hboth ∅ {[ "ip" := "10.0.0.5"; "hostname" := "phone" ]}
             "10.0.0.5" "phone").
    unfold binds. split; [reflexivity|]. split; [reflexivity|].
    split; discriminate.
Defined.

(** ** The query-log loader *)

Section QueryLogFacts.
Variable json_loads : string → exn + pyval.

Let parses (line : string) (r : pyval) : Prop := json_loads line = inr r.

Lemma nonblank_lines_cons line rest :
  nonblank_lines (line :: rest) =
    if PyStr.truthy (PyStr.strip line)
    then PyStr.strip line :: nonblank_lines rest
    else nonblank_lines rest.
Proof.
  unfold nonblank_lines. rewrite fmap_cons.
  destruct (PyStr.truthy (PyStr.strip line)) eqn:E.
  - by rewrite filter_cons_True.
  - rewrite filter_cons_False; [done|]. by rewrite E.
Qed.

(** The loop ends well exactly when every line that is not blank decodes;
    it then has appended the decoded records, in order. *)
Lemma load_querylog_from_ok lines : ∀ acc records,
  load_querylog_from json_loads acc lines = inr records
  ↔ ∃ rs, records = acc ++ rs ∧ Forall2 parses (nonblank_lines lines) rs.
Proof.
  induction lines as [|line rest IH]; intros acc records.
  - simpl. split.
    + intros [= <-]. exists []. by rewrite app_nil_r.
    + intros (rs & -> & Hrs). apply Forall2_nil_inv_l in Hrs as ->.
      by rewrite app_nil_r.
  - simpl. rewrite nonblank_lines_cons.
    destruct (PyStr.truthy (PyStr.strip line)); [|apply IH].
    destruct (json_loads (PyStr.strip line)) as [e|r] eqn:Hline.
    + split; [done|]. intros (rs & _ & Hrs).
      apply Forall2_cons_inv_l in Hrs as (r & rs' & Hr & _ & _).
      unfold parses in Hr. congruence.
    + rewrite IH. split.
      * intros (rs & -> & Hrs). exists (r :: rs).
        rewrite <- app_assoc. split; [done|]. by constructor.
      * intros (rs & -> & Hrs).
        apply Forall2_cons_inv_l in Hrs as (r' & rs' & Hr & Hrs & ->).
        unfold parses in Hr. assert (r' = r) as -> by congruence.
        exists rs'. by rewrite <- app_assoc.
Qed.

(** The loop ends with the error of the first line that does not decode. *)
Lemma load_querylog_from_error lines : ∀ acc e,
  load_querylog_from json_loads acc lines = inl e
  ↔ ∃ pre line post,
      nonblank_lines lines = pre ++ line :: post
      ∧ Forall (λ l, ∃ r, json_loads l = inr r) pre
      ∧ json_loads line = inl e.
Proof.
  induction lines as [|line rest IH]; intros acc e.
  - simpl. split; [done|]. intros (pre & l & post & H & _).
    by destruct pre.
  - simpl. rewrite nonblank_lines_cons.
    destruct (PyStr.truthy (PyStr.strip line)); [|apply IH].
    destruct (json_loads (PyStr.strip line)) as [e'|r] eqn:Hline.
    + split.
      * intros [= ->]. exists [], (PyStr.strip line), (nonblank_lines rest).
        by repeat split.
      * intros (pre & l & post & H & Hpre & Hl).
        destruct pre as [|p pre]; simplify_eq/=; [congruence|].
        apply Forall_cons in Hpre as [[r Hr] _]. congruence.
    + rewrite IH. split.
      * intros (pre & l & post & H & Hpre & Hl).
        exists (PyStr.strip line :: pre), l, post. rewrite H.
        repeat split; [|done]. constructor; eauto.
      * intros (pre & l & post & H & Hpre & Hl).
        destruct pre as [|p pre]; simplify_eq/=; [congruence|].
        apply Forall_cons in Hpre as [_ Hpre]. eauto 10.
Qed.

(** A log with a line that does not decode ends with the error of the
    first such line, whatever pandas would do. *)
Lemma load_querylog_decode_error (pd : pandas) lines pre line post e :
  nonblank_lines lines = pre ++ line :: post →
  Forall (λ l, ∃ r, json_loads l = inr r) pre →
  json_loads line = inl e →
  load_querylog json_loads pd lines = inl e.
Proof.
  intros Hlines Hpre Hline. unfold load_querylog, load_querylog_records.
  assert (load_querylog_from json_loads [] lines = inl e) as ->; [|done].
  apply load_querylog_from_error. eauto 10.
Qed.

(** A log whose lines all decode gives the frame of the decoded records. *)
Lemma load_querylog_decoded (pd : pandas) lines records :
  Forall2 parses (nonblank_lines lines) records →
  load_querylog json_loads pd lines = frame_of_records pd records.
Proof.
  intros Hrecords. unfold load_querylog, load_querylog_records.
  assert (load_querylog_from json_loads [] lines = inr records) as ->; [|done].
  apply load_querylog_from_ok. by exists records.
Qed.

(** On the log [sample_log_malformed] the outcome is the same for every
    decoder that, like [json.loads], decodes the first line and rejects
    the second, and does not depend on pandas. *)
Lemma sample_log_malformed_aborts (pd : pandas) (r : pyval) :
  json_loads (record_line "1") = inr r →
  json_loads "oops" = inl JSONDecodeError →
  load_querylog json_loads pd sample_log_malformed = inl JSONDecodeError.
Proof.
  intros Hfirst Hsecond.
  apply (load_querylog_decode_error pd _ [record_line "1"] "oops" []);
    [done| |done].
  constructor; eauto.
Qed.

End QueryLogFacts.

(** C1, as the specification states it, fails: there is no recovery
    around the decoder.  A log of one record loads; with a line that is
    not JSON after it, the loader ends with the decoder's error instead of
    the frame of that one record. *)
Lemma load_querylog_malformed_line_aborts :
  load_querylog json_loads_sample pandas_sample [record_line "1" +:+ nl]
  = inr [ {[ "T" := PInt 1 ]} ]
  ∧ load_querylog json_loads_sample pandas_sample sample_log_malformed
    = inl JSONDecodeError.
Proof.
  split; [reflexivity|].
  by apply (sample_log_malformed_aborts json_loads_sample pandas_sample
              (PDict {[ "T" := PInt 1 ]})).
Qed.

(** C1, amended.  Blank lines (empty once stripped) are skipped and every
    other line is decoded.  A line that does not decode ends the loading
    with the decoder's error, that of the first such line, and pandas is
    not reached.  When every line decodes, the outcome is that of lines 29
    to 31 on exactly the decoded records, in the order of the lines: the
    frame pandas builds from them with its [T] column parsed, or the
    exception pandas raises on the way.  One of the two cases always
    applies. *)
Theorem load_querylog_all_or_error
    (json_loads : string → exn + pyval) (pd : pandas) (lines : list string) :
  (∀ (pre : list string) (line : string) (post : list string) (e : exn),
     nonblank_lines lines = pre ++ line :: post →
     Forall (λ l, ∃ r, json_loads l = inr r) pre →
     json_loads line = inl e →
     load_querylog json_loads pd lines = inl e)
  ∧ (∀ records : list pyval,
       Forall2 (λ line r, json_loads line = inr r) (nonblank_lines lines) records →
       load_querylog json_loads pd lines = frame_of_records pd records)
  ∧ ((∃ pre line post e,
        nonblank_lines lines = pre ++ line :: post
        ∧ Forall (λ l, ∃ r, json_loads l = inr r) pre
        ∧ json_loads line = inl e)
     ∨ (∃ records : list pyval,
          Forall2 (λ line r, json_loads line = inr r) (nonblank_lines lines) records)).
Proof.
  split; [|split].
  - intros pre line post e. apply load_querylog_decode_error.
  - intros records. apply load_querylog_decoded.
  - destruct (load_querylog_from json_loads [] lines) as [e|records] eqn:E.
    + left. apply load_querylog_from_error in E as (pre & line & post & H).
      by exists pre, line, post, e.
    + right. apply load_querylog_from_ok in E as (rs & -> & Hrs).
      by exists rs.
Qed.

Lemma load_querylog_all_or_error_witness :
  load_querylog json_loads_sample pandas_sample sample_log
  = inr [ {[ "T" := PInt 1 ]}; {[ "T" := PInt 2 ]} ]
  ∧ load_querylog json_loads_sample pandas_sample sample_log_malformed
    = inl JSONDecodeError.
Proof.
  split.
  - rewrite (proj1 (proj2 (load_querylog_all_or_error
                             json_loads_sample pandas_sample sample_log))
               [PDict {[ "T" := PInt 1 ]}; PDict {[ "T" := PInt 2 ]}])
      by (repeat constructor).
    reflexivity.
  - apply (proj1 (load_querylog_all_or_error
                    json_loads_sample pandas_sample sample_log_malformed)
             [record_line "1"] "oops" []); [reflexivity | | reflexivity].
    constructor; [|constructor]. by exists (PDict {[ "T" := PInt 1 ]}).
Defined.

(** ** The sidebar filters *)

Section Filters.

Lemma isin_step column selected df :
  (if negb (bool_decide (length selected = 0))
   then isin_rows column selected df else df)
  = if decide (selected = []) then df
    else filter (λ r, column r ∈ selected) df.
Proof. by destruct selected. Qed.

Lemma isin_step_sublist column selected df :
  (if negb (bool_decide (length selected = 0))
   then isin_rows column selected df else df) `sublist_of` df.
Proof.
  rewrite isin_step. destruct (decide _); [done|]. apply sublist_filter.
Qed.

Lemma filter_status_sublist selection df :
  filter_status selection df `sublist_of` df.
Proof. destruct selection; simpl; [done|apply sublist_filter..]. Qed.

End Filters.

(** C6.  With no client, no domain and no query type selected and the
    status selection [All], the filters return the frame they were given.
    With a selection that is not empty, the client, domain and query-type
    steps each return the rows whose column value is in the selection, in
    the order they had.  Whatever is selected, the result of the four
    steps is a subsequence of the frame: rows are dropped, never moved. *)
Theorem sidebar_filters_narrow :
  (∀ df : list Row, sidebar_filters [] [] [] All df = df)
  ∧ (∀ (selected : list string) (df : list Row),
       selected ≠ [] →
       filter_clients selected df = filter (λ r, row_hostname r ∈ selected) df
       ∧ filter_domains selected df
         = filter (λ r, row_top_level_domain r ∈ selected) df
       ∧ filter_query_types selected df = filter (λ r, row_QT r ∈ selected) df)
  ∧ (∀ (selected : list string) (df : list Row) (r : Row),
       selected ≠ [] →
       (r ∈ filter_clients selected df ↔ r ∈ df ∧ row_hostname r ∈ selected)
       ∧ (r ∈ filter_domains selected df
          ↔ r ∈ df ∧ row_top_level_domain r ∈ selected)
       ∧ (r ∈ filter_query_types selected df ↔ r ∈ df ∧ row_QT r ∈ selected))
  ∧ (∀ (clients domains query_types : list string)
       (selection : filter_selection) (df : list Row),
       sidebar_filters clients domains query_types selection df `sublist_of` df).
Proof.
  split; [done|]. split; [|split].
  - intros selected df Hsel.
    unfold filter_clients, filter_domains, filter_query_types.
    rewrite !isin_step. by rewrite !decide_False.
  - intros selected df r Hsel.
    unfold filter_clients, filter_domains, filter_query_types.
    rewrite !isin_step, !decide_False by done.
    rewrite !list_elem_of_filter. tauto.
  - intros clients domains query_types selection df.
    unfold sidebar_filters. cbv zeta.
    etrans; [apply filter_status_sublist|].
    etrans; [apply isin_step_sublist|].
    etrans; [apply isin_step_sublist|].
    apply isin_step_sublist.
Qed.

Lemma sidebar_filters_narrow_witness :
  filter_clients ["laptop"] sample_frame
    = [ mkRow "laptop" "google.com" "A" false;
        mkRow "laptop" "doubleclick.net" "A" true ]
  ∧ filter_domains ["doubleclick.net"] sample_frame
    = [ mkRow "phone" "doubleclick.net" "AAAA" true;
        mkRow "laptop" "doubleclick.net" "A" true ]
  ∧ filter_query_types ["AAAA"; "HTTPS"] sample_frame
    = [ mkRow "phone" "doubleclick.net" "AAAA" true ].
Proof.
  destruct sidebar_filters_narrow as (_ & Hstep & _).
  split; [|split].
  - rewrite (proj1 (Hstep ["laptop"] sample_frame ltac:(discriminate))).
    reflexivity.
  - rewrite (proj1 (proj2 (Hstep ["doubleclick.net"] sample_frame
                             ltac:(discriminate)))).
    reflexivity.
  - rewrite (proj2 (proj2 (Hstep ["AAAA"; "HTTPS"] sample_frame
                             ltac:(discriminate)))).
    reflexivity.
Defined.

(** ** The examples of the specification *)

Example extract_google :
  extract_top_level_domain "www.google.com" = Some "google.com".
Proof. reflexivity. Qed.

Example extract_willhaben :
  extract_top_level_domain "www.willhaben.at" = Some "willhaben.at".
Proof. reflexivity. Qed.

Example extract_staff_co_uk :
  extract_top_level_domain "mail.staff.co.uk" = Some "staff.co.uk".
Proof. reflexivity. Qed.

Example extract_bare_co_uk : extract_top_level_domain "co.uk" = Some "co.uk".
Proof. reflexivity. Qed.

Example extract_single_label :
  extract_top_level_domain "LocalHost" = Some "LocalHost".
Proof. reflexivity. Qed.

Example extract_empty : extract_top_level_domain "" = Some "".
Proof. reflexivity. Qed.

Example classify_none :
  get_filter_reason PNone = inr "Not Filtered" ∧ is_filtered PNone = PBool false.
Proof. split; reflexivity. Qed.

Example classify_rule :
  get_filter_reason (PDict {[ "Reason" := PInt 3; "IsFiltered" := PBool true ]})
  = inr "Blocked by Rule".
Proof. reflexivity. Qed.

Example classify_boolean_code :
  get_filter_reason (PDict {[ "Reason" := PBool true ]}) = inr "Blocked by Filter".
Proof. reflexivity. Qed.

Example classify_list_code :
  get_filter_reason (PDict {[ "Reason" := PList [PInt 1] ]}) = inl TypeError.
Proof. reflexivity. Qed.

Example load_empty_file :
  load_querylog json_loads_sample pandas_sample [] = inl KeyError.
Proof. reflexivity. Qed.

Example load_records_without_T :
  load_querylog json_loads_sample pandas_sample sample_log_no_T = inl KeyError.
Proof. reflexivity. Qed.

Example strip_line : PyStr.strip ("  {} " +:+ nl) = "{}".
Proof. reflexivity. Qed.

Example lower_host : PyStr.lower "WWW.Example.COM" = "www.example.com".
Proof. reflexivity. Qed.

Example lower_char_latin1 :
  PyStr.lower_char "192" = "224"%char ∧ PyStr.lower_char "215" = "215"%char.
Proof. split; reflexivity. Qed.

(** * Further properties *)

(** ** More on strings *)

Section MoreStringFacts.

Lemma lower_char_idemp c : PyStr.lower_char (PyStr.lower_char c) = PyStr.lower_char c.
Proof. destruct c as [[] [] [] [] [] [] [] []]; reflexivity. Qed.

Lemma lower_idemp s : PyStr.lower (PyStr.lower s) = PyStr.lower s.
Proof.
  induction s as [|c s IH]; simpl; [done|]. by rewrite lower_char_idemp, IH.
Qed.

Lemma append_assoc s t u : (s +:+ t) +:+ u = s +:+ t +:+ u.
Proof.
  induction s as [|c s IH]; [done|].
  change (String c ((s +:+ t) +:+ u) = String c (s +:+ t +:+ u)). by rewrite IH.
Qed.

Lemma contains_app c s t :
  PyStr.contains c (s +:+ t) = PyStr.contains c s || PyStr.contains c t.
Proof.
  induction s as [|c' s IH]; simpl; [done|]. by rewrite IH, orb_assoc.
Qed.

(** A string without the separator is its own single piece. *)
Lemma split_no_sep sep s : PyStr.contains sep s = false → PyStr.split sep s = [s].
Proof.
  induction s as [|c s IH]; simpl; [done|].
  intros [Hc Hs]%orb_false_elim. rewrite Hc, IH by done. done.
Qed.

(** The pieces of a split do not contain the separator. *)
Lemma split_pieces sep s :
  Forall (λ p, PyStr.contains sep p = false) (PyStr.split sep s).
Proof.
  induction s as [|c s IH]; simpl; [by repeat constructor|].
  destruct (Ascii.eqb c sep) eqn:Hc; [by constructor|].
  destruct (PyStr.split sep s) as [|p ps].
  - constructor; [simpl; by rewrite Hc | constructor].
  - apply Forall_cons in IH as [Hp Hps]. constructor; [|done].
    simpl. by rewrite Hc.
Qed.

(** Splitting around a separator splits both sides. *)
Lemma split_app sep s t :
  PyStr.split sep (s +:+ String sep t) = PyStr.split sep s ++ PyStr.split sep t.
Proof.
  induction s as [|c s IH]; simpl.
  - by rewrite Ascii.eqb_refl.
  - rewrite IH. destruct (Ascii.eqb c sep); [done|].
    pose proof (split_not_nil sep s). by destruct (PyStr.split sep s).
Qed.

(** Splitting a join of pieces without the separator gives the pieces. *)
Lemma split_join sep parts :
  parts ≠ [] →
  Forall (λ p, PyStr.contains sep p = false) parts →
  PyStr.split sep (PyStr.join (String sep "") parts) = parts.
Proof.
  induction parts as [|p [|q ps] IH]; [done| |]; intros _ Hall.
  - apply Forall_cons in Hall as [Hp _]. by apply split_no_sep.
  - apply Forall_cons in Hall as [Hp Hall].
    rewrite join_cons. change (String sep "" +:+ ?x) with (String sep x).
    rewrite split_app, split_no_sep, IH by done. done.
Qed.

Lemma join_app sep l1 l2 :
  l1 ≠ [] → l2 ≠ [] →
  PyStr.join sep (l1 ++ l2) = PyStr.join sep l1 +:+ sep +:+ PyStr.join sep l2.
Proof.
  intros Hl1 Hl2. induction l1 as [|p [|q l1] IH]; [done| |].
  - destruct l2; done.
  - change ((p :: q :: l1) ++ l2) with (p :: (q :: l1) ++ l2).
    change ((q :: l1) ++ l2) with (q :: l1 ++ l2) at 1.
    rewrite !join_cons.
    change (q :: l1 ++ l2) with ((q :: l1) ++ l2). rewrite IH by done.
    by rewrite !append_assoc.
Qed.

Lemma lower_join sep parts :
  PyStr.lower (PyStr.join sep parts) = PyStr.join (PyStr.lower sep) (PyStr.lower <$> parts).
Proof.
  induction parts as [|p [|q ps] IH]; [done..|].
  rewrite fmap_cons. change (PyStr.lower <$> q :: ps) with (PyStr.lower q :: (PyStr.lower <$> ps)) in *.
  rewrite !join_cons, !lower_app. by rewrite IH.
Qed.

End MoreStringFacts.

(** ** More on the extractor *)

Section MoreExtractor.

(** The labels of a lower-cased host are lower-case. *)
Lemma split_lower_fixed host :
  Forall (λ p, PyStr.lower p = p) (PyStr.split "." (PyStr.lower host)).
Proof.
  rewrite split_lower. apply Forall_fmap, Forall_true. intros p. simpl.
  apply lower_idemp.
Qed.

(** A join of lower-case labels without dots splits into these labels. *)
Lemma split_lower_join labels :
  labels ≠ [] →
  Forall (λ p, PyStr.contains "." p = false) labels →
  Forall (λ p, PyStr.lower p = p) labels →
  PyStr.split "." (PyStr.lower (PyStr.join "." labels)) = labels.
Proof.
  intros Hne Hdots Hlower. rewrite lower_join.
  assert (PyStr.lower <$> labels = labels) as ->.
  { clear Hne Hdots. induction Hlower as [|p ps Hp _ IH]; [done|].
    by rewrite fmap_cons, Hp, IH. }
  by apply (split_join "." labels).
Qed.

Lemma dotted_not_empty host : PyStr.contains "." host = true → host ≠ "".
Proof. by intros H ->. Qed.

(** The three ways a host with a dot is treated. *)
Lemma extract_dotted host :
  PyStr.contains "." host = true →
  (∃ a b, PyStr.split "." (PyStr.lower host) = [a; b]
          ∧ extract_top_level_domain host = Some (PyStr.join "." [a; b]))
  ∨ (∃ pre c a b, PyStr.split "." (PyStr.lower host) = pre ++ [c; a; b]
                  ∧ PyStr.join "." [a; b] ∈ multi_part_tlds
                  ∧ extract_top_level_domain host = Some (PyStr.join "." [c; a; b]))
  ∨ (∃ pre c a b, PyStr.split "." (PyStr.lower host) = pre ++ [c; a; b]
                  ∧ (PyStr.join "." [a; b] ∉ multi_part_tlds)
                  ∧ extract_top_level_domain host = Some (PyStr.join "." [a; b])).
Proof.
  intros Hc. pose proof (dotted_not_empty host Hc) as Hne.
  rewrite <- contains_lower, <- split_length_contains in Hc.
  apply Nat.leb_le, list_snoc2 in Hc as (pre & a & b & Hsplit).
  destruct pre as [|c pre _] using rev_ind.
  - left. exists a, b. split; [done|]. by apply extract_two.
  - rewrite <- app_assoc in Hsplit. simpl in Hsplit. right.
    pose proof (extract_three host pre c a b Hne Hsplit) as H.
    destruct (decide (PyStr.join "." [a; b] ∈ multi_part_tlds)) as [Hin|Hin].
    + left. exists pre, c, a, b. repeat split; [done..|].
      by rewrite bool_decide_eq_true_2 in H.
    + right. exists pre, c, a, b. repeat split; [done..|].
      by rewrite bool_decide_eq_false_2 in H.
Qed.

(** The result of a host with a dot: the join of the last two or three of
    its labels. *)
Lemma extract_dotted_labels host :
  PyStr.contains "." host = true →
  ∃ pre labels,
    PyStr.split "." (PyStr.lower host) = pre ++ labels
    ∧ (length labels = 2 ∨ length labels = 3)
    ∧ extract_top_level_domain host = Some (PyStr.join "." labels).
Proof.
  intros [(a & b & Hs & H)|[(pre & c & a & b & Hs & _ & H)
                           |(pre & c & a & b & Hs & _ & H)]]%extract_dotted.
  - exists [], [a; b]. eauto.
  - exists pre, [c; a; b]. eauto.
  - exists (pre ++ [c]), [a; b]. rewrite <- app_assoc. eauto.
Qed.

(** The extractor on a join of lower-case labels without dots. *)
Lemma extract_of_labels2 a b :
  Forall (λ p, PyStr.contains "." p = false) [a; b] →
  Forall (λ p, PyStr.lower p = p) [a; b] →
  extract_top_level_domain (PyStr.join "." [a; b]) = Some (PyStr.join "." [a; b]).
Proof.
  intros Hdots Hlower. apply extract_two.
  - apply append_not_empty.
  - by apply split_lower_join.
Qed.

Lemma extract_of_labels3 c a b :
  Forall (λ p, PyStr.contains "." p = false) [c; a; b] →
  Forall (λ p, PyStr.lower p = p) [c; a; b] →
  PyStr.join "." [a; b] ∈ multi_part_tlds →
  extract_top_level_domain (PyStr.join "." [c; a; b])
  = Some (PyStr.join "." [c; a; b]).
Proof.
  intros Hdots Hlower Hin.
  rewrite (extract_three _ [] c a b).
  - by rewrite bool_decide_eq_true_2.
  - apply append_not_empty.
  - by apply split_lower_join.
Qed.

End MoreExtractor.

(** X1.  Extracting the top-level domain of a top-level domain changes
    nothing: what the extractor returns is returned unchanged when it is
    given to the extractor again. *)
Theorem extract_idempotent (host : string) :
  extract_top_level_domain host ≫= extract_top_level_domain
  = extract_top_level_domain host.
Proof.
  destruct (PyStr.contains "." host) eqn:Hc.
  - pose proof (split_pieces "." (PyStr.lower host)) as Hdots.
    pose proof (split_lower_fixed host) as Hlower.
    destruct (extract_dotted host Hc)
      as [(a & b & Hs & H)|[(pre & c & a & b & Hs & Hin & H)
                           |(pre & c & a & b & Hs & Hin & H)]];
      rewrite H; simpl; rewrite Hs in Hdots, Hlower.
    + by apply extract_of_labels2.
    + apply Forall_app in Hdots as [_ Hdots].
      apply Forall_app in Hlower as [_ Hlower].
      by apply extract_of_labels3.
    + apply Forall_app in Hdots as [_ Hdots].
      apply Forall_app in Hlower as [_ Hlower].
      apply Forall_cons in Hdots as [_ Hdots].
      apply Forall_cons in Hlower as [_ Hlower].
      by apply extract_of_labels2.
  - rewrite extract_no_dot by done. simpl. by apply extract_no_dot.
Qed.

(** X2.  Two hosts with a dot that differ only in the case of their
    letters have the same top-level domain, and it is in lower case. *)
Theorem extract_ignores_case (host1 host2 : string) :
  PyStr.lower host1 = PyStr.lower host2 →
  PyStr.contains "." host1 = true →
  ∃ tld, extract_top_level_domain host1 = Some tld
         ∧ extract_top_level_domain host2 = Some tld
         ∧ PyStr.lower tld = tld.
Proof.
  intros Heq Hc1.
  assert (PyStr.contains "." host2 = true) as Hc2
    by by rewrite <- contains_lower, <- Heq, contains_lower.
  pose proof (dotted_not_empty _ Hc1) as Hne1.
  pose proof (dotted_not_empty _ Hc2) as Hne2.
  pose proof (split_lower_fixed host1) as Hlower.
  pose proof Hc1 as Hlen.
  rewrite <- contains_lower, <- split_length_contains in Hlen.
  apply Nat.leb_le, list_snoc2 in Hlen as (pre & a & b & Hs1).
  assert (PyStr.split "." (PyStr.lower host2) = pre ++ [a; b]) as Hs2
    by by rewrite <- Heq.
  rewrite Hs1 in Hlower.
  apply Forall_app in Hlower as [Hpre Hlast].
  apply Forall_cons in Hlast as [Ha [Hb _]%Forall_cons].
  assert (PyStr.lower (a +:+ "." +:+ b) = a +:+ "." +:+ b) as Hab
    by by rewrite !lower_app, Ha, Hb.
  destruct pre as [|c pre _] using rev_ind.
  - exists (a +:+ "." +:+ b). by rewrite !(extract_two _ a b).
  - rewrite <- app_assoc in Hs1, Hs2. simpl in Hs1, Hs2.
    rewrite (extract_three host1 pre c a b), (extract_three host2 pre c a b)
      by done.
    destruct (bool_decide _); [|by eauto].
    eexists. repeat split.
    apply Forall_app in Hpre as [_ [Hc _]%Forall_cons].
    by rewrite !lower_app, Ha, Hb, Hc.
Qed.

Lemma extract_ignores_case_witness :
  ∃ tld, extract_top_level_domain "WWW.Google.COM" = Some tld
         ∧ extract_top_level_domain "www.google.com" = Some tld
         ∧ PyStr.lower tld = tld.
Proof.
  apply (extract_ignores_case "WWW.Google.COM" "www.google.com");
    reflexivity.
Defined.

(** X3.  For a host with a dot the result is the end of the lower-cased
    host, cut where a label starts, and it has two or three labels. *)
Theorem extract_is_label_suffix (host : string) :
  PyStr.contains "." host = true →
  ∃ tld prefix,
    extract_top_level_domain host = Some tld
    ∧ PyStr.lower host = prefix +:+ tld
    ∧ (prefix = "" ∨ PyStr.endswith "." prefix = true)
    ∧ (length (PyStr.split "." tld) = 2 ∨ length (PyStr.split "." tld) = 3).
Proof.
  intros Hc.
  destruct (extract_dotted_labels host Hc) as (pre & labels & Hs & Hlen & H).
  pose proof (split_pieces "." (PyStr.lower host)) as Hdots.
  pose proof (join_split "." (PyStr.lower host)) as Hjoin.
  rewrite Hs in Hdots, Hjoin. apply Forall_app in Hdots as [_ Hdots].
  assert (labels ≠ []) as Hne by (intros ->; simpl in Hlen; lia).
  exists (PyStr.join "." labels).
  assert (PyStr.split "." (PyStr.join "." labels) = labels) as Hsplit
    by by apply (split_join "." labels).
  destruct pre as [|p pre].
  - exists "". rewrite Hsplit. simpl in Hjoin. by eauto.
  - exists (PyStr.join "." (p :: pre) +:+ "."). rewrite Hsplit.
    repeat split; [done| |right; apply endswith_snoc|done].
    rewrite <- Hjoin. rewrite (join_app "." (p :: pre) labels) by done.
    by rewrite append_assoc.
Qed.

Lemma extract_is_label_suffix_witness :
  ∃ tld prefix,
    extract_top_level_domain "Mail.Staff.co.uk" = Some tld
    ∧ PyStr.lower "Mail.Staff.co.uk" = prefix +:+ tld
    ∧ (prefix = "" ∨ PyStr.endswith "." prefix = true)
    ∧ (length (PyStr.split "." tld) = 2 ∨ length (PyStr.split "." tld) = 3).
Proof. apply (extract_is_label_suffix "Mail.Staff.co.uk"). reflexivity. Defined.

(** X4.  Subdomains are ignored: only the last labels count.  Two hosts
    whose lower-cased forms split into labels that end in the same two
    labels have the same top-level domain, provided these two labels are
    not a suffix of the table, or the label before them is the same in
    both hosts (or absent in both). *)
Theorem extract_ignores_subdomains
    (host1 host2 : string) (pre1 pre2 : list string) (a b : string) :
  PyStr.split "." (PyStr.lower host1) = pre1 ++ [a; b] →
  PyStr.split "." (PyStr.lower host2) = pre2 ++ [a; b] →
  PyStr.join "." [a; b] ∉ multi_part_tlds ∨ last pre1 = last pre2 →
  extract_top_level_domain host1 = extract_top_level_domain host2.
Proof.
  assert (∀ host pre, PyStr.split "." (PyStr.lower host) = pre ++ [a; b] →
                      host ≠ "") as Hne.
  { intros host pre Hs ->. apply (f_equal length) in Hs.
    rewrite length_app in Hs. simpl in Hs. lia. }
  assert (∀ host pre,
            PyStr.split "." (PyStr.lower host) = pre ++ [a; b] →
            extract_top_level_domain host =
              Some (match last pre with
                    | Some c =>
                        if bool_decide (a +:+ "." +:+ b ∈ multi_part_tlds)
                        then c +:+ "." +:+ a +:+ "." +:+ b
                        else a +:+ "." +:+ b
                    | None => a +:+ "." +:+ b
                    end)) as Hresult.
  { intros host pre Hs. pose proof (Hne host pre Hs).
    destruct pre as [|c pre _] using rev_ind.
    - by apply extract_two.
    - rewrite last_snoc. rewrite <- app_assoc in Hs.
      by apply (extract_three host pre c a b). }
  intros Hs1 Hs2 Hcond.
  rewrite (Hresult host1 pre1 Hs1), (Hresult host2 pre2 Hs2).
  destruct Hcond as [Hnot| ->]; [|done].
  change (PyStr.join "." [a; b]) with (a +:+ "." +:+ b) in Hnot.
  rewrite bool_decide_eq_false_2 by done.
  by destruct (last pre1), (last pre2).
Qed.

Lemma extract_ignores_subdomains_witness :
  extract_top_level_domain "static.CDN.duckduckgo.com"
  = extract_top_level_domain "DuckDuckGo.com".
Proof.
  apply (extract_ignores_subdomains
           "static.CDN.duckduckgo.com" "DuckDuckGo.com"
           ["static"; "cdn"] [] "duckduckgo" "com");
    [reflexivity | reflexivity |].
  left. vm_compute. discriminate.
Defined.

(** ** More on the classifier *)

Section MoreClassifier.

Lemma of_int_inj (z1 z2 : Z) : PyStr.of_int z1 = PyStr.of_int z2 → z1 = z2.
Proof.
  assert (∀ z, Z.to_int z ≠ Decimal.Pos Decimal.Nil
               ∧ Z.to_int z ≠ Decimal.Neg Decimal.Nil) as Hnil.
  { intros [|p|p]; split; try done; simpl; intros [= H];
      by apply DecimalPos.Unsigned.to_uint_nonnil in H. }
  unfold PyStr.of_int. intros H.
  apply (f_equal NilZero.int_of_string) in H.
  rewrite !NilZero.isi in H by apply Hnil. injection H as H.
  by apply DecimalZ.to_int_inj.
Qed.

Lemma append_char_inj s1 s2 c : s1 +:+ String c "" = s2 +:+ String c "" → s1 = s2.
Proof.
  revert s2. induction s1 as [|c1 s1 IH]; intros [|c2 s2] H; simpl in H.
  - done.
  - injection H as -> H. by destruct s2.
  - injection H as -> H. by destruct s1.
  - injection H as -> H. f_equal. by apply IH.
Qed.

Lemma unknown_label_inj (z1 z2 : Z) : unknown_label z1 = unknown_label z2 → z1 = z2.
Proof.
  unfold unknown_label. intros H. apply (inj (String.append _)) in H.
  by apply append_char_inj, of_int_inj in H.
Qed.

Lemma spec_reason_labels_NoDup : NoDup spec_reason_labels.
Proof. by apply (bool_decide_unpack _). Qed.

(** The status of a result object with an integer code. *)
Lemma get_filter_reason_int d z :
  d !! "Reason" = Some (PInt z) →
  get_filter_reason (PDict d) =
    inr (if decide (0 ≤ z ≤ 7)%Z
         then default "" (spec_reason_labels !! Z.to_nat z)
         else unknown_label z).
Proof. intros Hd. by rewrite get_filter_reason_dict, Hd, reason_codes_get_int. Qed.

End MoreClassifier.

(** X5.  The classifier has one error path: it raises (a TypeError) exactly
    when the result is an object whose code is a list or an object; for
    every other value it returns a label. *)
Theorem get_filter_reason_raises_iff (result : pyval) (e : exn) :
  get_filter_reason result = inl e
  ↔ e = TypeError
    ∧ ∃ d, result = PDict d
           ∧ ((∃ l, d !! "Reason" = Some (PList l))
              ∨ (∃ d', d !! "Reason" = Some (PDict d'))).
Proof.
  split.
  - destruct result as [| | | | | |d];
      try (rewrite get_filter_reason_not_dict by done; discriminate).
    rewrite get_filter_reason_dict.
    destruct (d !! "Reason") as [[| |b|z| |l|d']|] eqn:Hd; simpl;
      try discriminate.
    + intros [= <-]. split; [done|]. exists d. eauto.
    + intros [= <-]. split; [done|]. exists d. eauto.
  - intros (-> & d & -> & [[l Hd]|[d' Hd]]);
      by rewrite get_filter_reason_dict, Hd.
Qed.

(** X6.  Two result objects with different integer codes never get the
    same status: the eight labels are distinct, a label for an unknown
    code is none of them, and it shows its code. *)
Theorem get_filter_reason_separates_codes
    (d1 d2 : gmap string pyval) (z1 z2 : Z) :
  d1 !! "Reason" = Some (PInt z1) →
  d2 !! "Reason" = Some (PInt z2) →
  z1 ≠ z2 →
  get_filter_reason (PDict d1) ≠ get_filter_reason (PDict d2).
Proof.
  intros Hd1 Hd2 Hne.
  rewrite (get_filter_reason_int d1 z1), (get_filter_reason_int d2 z2) by done.
  intros [= H]. apply Hne. clear Hne.
  destruct (decide (0 ≤ z1 ≤ 7)%Z) as [Hz1|Hz1],
           (decide (0 ≤ z2 ≤ 7)%Z) as [Hz2|Hz2].
  - destruct (label_in_range z1 Hz1) as [l1 Hl1].
    destruct (label_in_range z2 Hz2) as [l2 Hl2].
    rewrite Hl1, Hl2 in H. simpl in H. subst l2.
    pose proof (NoDup_lookup _ _ _ _ spec_reason_labels_NoDup Hl1 Hl2). lia.
  - destruct (label_in_range z1 Hz1) as [l1 Hl1]. rewrite Hl1 in H.
    simpl in H. apply list_elem_of_lookup_2 in Hl1. rewrite H in Hl1.
    by apply unknown_label_not_label in Hl1.
  - destruct (label_in_range z2 Hz2) as [l2 Hl2]. rewrite Hl2 in H.
    simpl in H. apply list_elem_of_lookup_2 in Hl2. rewrite <- H in Hl2.
    by apply unknown_label_not_label in Hl2.
  - by apply unknown_label_inj.
Qed.

Lemma get_filter_reason_separates_codes_witness :
  get_filter_reason (PDict {[ "Reason" := PInt 12 ]})
  ≠ get_filter_reason (PDict {[ "Reason" := PInt 13; "IsFiltered" := PBool true ]}).
Proof.
  apply (get_filter_reason_separates_codes
           {[ "Reason" := PInt 12 ]}
           {[ "Reason" := PInt 13; "IsFiltered" := PBool true ]} 12 13);
    [reflexivity | reflexivity | lia].
Defined.

(** ** More on the lease loader *)

Section MoreLeases.

Lemma last_binding_Some ip leases name :
  last_binding ip leases = Some name →
  ∃ l, l ∈ leases ∧ surviving l = Some (ip, name).
Proof.
  unfold last_binding. intros H.
  apply fmap_Some in H as ([ip' name'] & Hlast & ->).
  apply last_Some_elem_of, list_elem_of_filter in Hlast as [Hip Hin].
  simpl in Hip. subst ip'.
  apply list_elem_of_omap in Hin as (l & Hl & Hs). eauto.
Qed.

Lemma last_binding_is_Some ip leases l name :
  l ∈ leases → surviving l = Some (ip, name) →
  is_Some (last_binding ip leases).
Proof.
  intros Hl Hs. unfold last_binding. apply fmap_is_Some.
  assert ((ip, name) ∈ filter (λ p, p.1 = ip) (omap surviving leases)) as Hin.
  { apply list_elem_of_filter. split; [done|].
    apply list_elem_of_omap. eauto. }
  destruct (filter _ _) as [|p ps] using rev_ind.
  - by apply elem_of_nil in Hin.
  - rewrite last_snoc. eauto.
Qed.

Lemma load_leases_lookup data ip :
  load_leases data !! ip = last_binding ip (default [] (data !! "leases")).
Proof.
  unfold load_leases. rewrite foldl_add_lease. by destruct (last_binding _ _).
Qed.

(** The loop over a table [m] is the loop over the empty table, laid over
    [m]. *)
Lemma foldl_add_lease_union m leases :
  foldl add_lease m leases = foldl add_lease ∅ leases ∪ m.
Proof.
  apply map_eq. intros ip.
  rewrite lookup_union, !foldl_add_lease, lookup_empty.
  destruct (last_binding ip leases), (m !! ip); done.
Qed.

Lemma foldl_add_lease_size m leases :
  size (foldl add_lease m leases) ≤ size m + length leases.
Proof.
  revert m. induction leases as [|l leases IH]; intros m; simpl; [lia|].
  etrans; [apply IH|]. rewrite add_lease_surviving.
  destruct (surviving l) as [[ip name]|]; [|lia].
  rewrite map_size_insert. destruct (m !! ip); simpl; lia.
Qed.

End MoreLeases.

(** X7.  The table the lease loader builds has no empty address and no
    empty hostname; so a client whose address is not empty never resolves
    to an empty name. *)
Theorem load_leases_no_empty_strings (data : gmap string (list lease)) :
  (∀ ip name : string, load_leases data !! ip = Some name → ip ≠ "" ∧ name ≠ "")
  ∧ (∀ ip : string, ip ≠ "" → hostname (load_leases data) ip ≠ "").
Proof.
  assert (∀ ip name, load_leases data !! ip = Some name → ip ≠ "" ∧ name ≠ "")
    as Htable.
  { intros ip name. rewrite load_leases_lookup.
    intros (l & _ & Hs)%last_binding_Some.
    by apply surviving_Some in Hs as (_ & _ & ? & ?). }
  split; [done|]. intros ip Hip. unfold hostname.
  destruct (load_leases data !! ip) as [name|] eqn:E; simpl; [|done].
  by apply Htable in E as [_ ?].
Qed.

Lemma load_leases_no_empty_strings_witness :
  hostname (load_leases sample_leases_file) "10.0.0.5" ≠ "".
Proof.
  apply (proj2 (load_leases_no_empty_strings sample_leases_file) "10.0.0.5").
  done.
Defined.

(** X8.  An address is a key of the table exactly when some entry of the
    array carries it with a hostname, neither being empty; the table has
    at most as many keys as the array has entries, and none when the
    document has no [leases] member. *)
Theorem load_leases_keys (data : gmap string (list lease)) :
  (∀ ip : string,
     is_Some (load_leases data !! ip)
     ↔ ∃ l name, l ∈ default [] (data !! "leases")
                 ∧ l !! "ip" = Some ip ∧ l !! "hostname" = Some name
                 ∧ ip ≠ "" ∧ name ≠ "")
  ∧ size (load_leases data) ≤ length (default [] (data !! "leases"))
  ∧ (data !! "leases" = None → load_leases data = ∅).
Proof.
  split; [|split].
  - intros ip. rewrite load_leases_lookup. split.
    + intros [name (l & Hl & Hs)%last_binding_Some].
      apply surviving_Some in Hs. eauto.
    + intros (l & name & Hl & Hs). apply surviving_Some in Hs.
      by eapply last_binding_is_Some.
  - unfold load_leases. etrans; [apply foldl_add_lease_size|].
    by rewrite map_size_empty.
  - intros Hnone. unfold load_leases. by rewrite Hnone.
Qed.

Lemma load_leases_keys_witness :
  is_Some (load_leases sample_leases_file !! "10.0.0.5")
  ∧ load_leases {[ "version" := [] ]} = ∅.
Proof.
  split.
  - apply (proj1 (load_leases_keys sample_leases_file) "10.0.0.5").
    exists {[ "ip" := "10.0.0.5"; "hostname" := "tablet" ]}, "tablet".
    repeat split; [apply list_elem_of_here | done..].
  - apply (proj2 (proj2 (load_leases_keys {[ "version" := [] ]}))).
    reflexivity.
Defined.

(** X9.  Loading an array that is two arrays one after the other gives the
    table of the second laid over the table of the first: where both bind
    an address, the later array wins. *)
Theorem load_leases_app (leases1 leases2 : list lease) :
  load_leases {[ "leases" := leases1 ++ leases2 ]}
  = load_leases {[ "leases" := leases2 ]} ∪ load_leases {[ "leases" := leases1 ]}.
Proof.
  unfold load_leases. rewrite !lookup_singleton_eq. simpl.
  rewrite foldl_app. apply foldl_add_lease_union.
Qed.

(** ** More on the query-log loader *)

Section MoreQueryLog.
Variable json_loads : string → exn + pyval.

(** A line is blank for the loader exactly when it is white space only. *)
Lemma strip_truthy s : PyStr.truthy (PyStr.strip s) = negb (only_whitespace s).
Proof.
  unfold PyStr.strip. induction s as [|c s IH]; simpl; [done|].
  destruct (PyStr.isspace c) eqn:Hc; simpl; [done|].
  destruct (PyStr.rstrip s); by rewrite ?Hc.
Qed.

(** The records read so far do not influence what is read next. *)
Lemma load_querylog_from_acc lines : ∀ acc,
  load_querylog_from json_loads acc lines =
    match load_querylog_from json_loads [] lines with
    | inl e => inl e
    | inr records => inr (acc ++ records)
    end.
Proof.
  induction lines as [|line rest IH]; intros acc; simpl.
  - by rewrite app_nil_r.
  - destruct (PyStr.truthy (PyStr.strip line)); [|apply IH].
    destruct (json_loads (PyStr.strip line)) as [e|r]; [done|].
    rewrite (IH (acc ++ [r])), (IH [r]).
    destruct (load_querylog_from json_loads [] rest); [done|].
    by rewrite <- app_assoc.
Qed.

Lemma load_querylog_from_app lines1 lines2 : ∀ acc,
  load_querylog_from json_loads acc (lines1 ++ lines2) =
    match load_querylog_from json_loads acc lines1 with
    | inl e => inl e
    | inr records => load_querylog_from json_loads records lines2
    end.
Proof.
  induction lines1 as [|line rest IH]; intros acc; simpl; [done|].
  destruct (PyStr.truthy (PyStr.strip line)); [|apply IH].
  destruct (json_loads (PyStr.strip line)) as [e|r]; [done|]. apply IH.
Qed.

Lemma nonblank_lines_length lines :
  length (nonblank_lines lines)
  = length (filter (λ line, only_whitespace line = false) lines).
Proof.
  induction lines as [|line rest IH]; [done|].
  rewrite nonblank_lines_cons, strip_truthy.
  destruct (only_whitespace line) eqn:E; simpl.
  - by rewrite filter_cons_False by (by rewrite E).
  - rewrite filter_cons_True by done. simpl. by rewrite IH.
Qed.

End MoreQueryLog.

(** X10.  The records the loop of the loader collects from two logs one
    after the other: the error of the first if the loop fails on it, else
    the error of the second if it fails there, else the records of the
    first followed by those of the second. *)
Theorem load_querylog_records_app
    (json_loads : string → exn + pyval) (lines1 lines2 : list string) :
  load_querylog_records json_loads (lines1 ++ lines2) =
    match load_querylog_records json_loads lines1 with
    | inl e => inl e
    | inr records1 =>
        match load_querylog_records json_loads lines2 with
        | inl e => inl e
        | inr records2 => inr (records1 ++ records2)
        end
    end.
Proof.
  unfold load_querylog_records. rewrite load_querylog_from_app.
  destruct (load_querylog_from json_loads [] lines1) as [e|records1]; [done|].
  apply load_querylog_from_acc.
Qed.

(** X11.  A line of white space only, wherever it stands in the file,
    changes nothing of what the loader returns; and when the loop ends
    well, it has collected one record for each of the other lines. *)
Theorem load_querylog_whitespace_lines
    (json_loads : string → exn + pyval) (pd : pandas) :
  (∀ (before after : list string) (line : string),
     only_whitespace line = true →
     load_querylog json_loads pd (before ++ line :: after)
     = load_querylog json_loads pd (before ++ after))
  ∧ (∀ (lines : list string) (records : list pyval),
       load_querylog_records json_loads lines = inr records →
       length records
       = length (filter (λ line, only_whitespace line = false) lines)).
Proof.
  split.
  - intros before after line Hline.
    unfold load_querylog, load_querylog_records.
    rewrite !load_querylog_from_app.
    destruct (load_querylog_from json_loads [] before) as [e|records]; [done|].
    simpl. by rewrite strip_truthy, Hline.
  - intros lines records H. unfold load_querylog_records in H.
    apply load_querylog_from_ok in H as (rs & -> & Hrs).
    apply Forall2_length in Hrs. simpl.
    by rewrite <- Hrs, nonblank_lines_length.
Qed.

Lemma load_querylog_whitespace_lines_witness :
  load_querylog json_loads_sample pandas_sample
    ([record_line "1"] ++ ("  " +:+ nl) :: [record_line "2"])
  = load_querylog json_loads_sample pandas_sample
      ([record_line "1"] ++ [record_line "2"])
  ∧ length [PDict {[ "T" := PInt 1 ]}; PDict {[ "T" := PInt 2 ]}]
    = length (filter (λ line, only_whitespace line = false) sample_log).
Proof.
  destruct (load_querylog_whitespace_lines json_loads_sample pandas_sample)
    as [Hskip Hcount].
  split.
  - apply (Hskip [record_line "1"] [record_line "2"] ("  " +:+ nl)).
    reflexivity.
  - apply (Hcount sample_log
             [PDict {[ "T" := PInt 1 ]}; PDict {[ "T" := PInt 2 ]}]).
    reflexivity.
Defined.

(** ** More on the sidebar filters *)

Section MoreFilters.

Lemma filter_all {A} (P : A → Prop) `{∀ x, Decision (P x)} (l : list A) :
  (∀ x, P x) → filter P l = l.
Proof.
  intros HP. induction l as [|x l IH]; [done|].
  by rewrite filter_cons_True, IH.
Qed.

(** A membership step as one filter. *)
Lemma isin_step_filter column selected df :
  (if negb (bool_decide (length selected = 0))
   then isin_rows column selected df else df)
  = filter (λ r, selected = [] ∨ column r ∈ selected) df.
Proof.
  rewrite isin_step. destruct (decide (selected = [])) as [->|Hne].
  - symmetry. apply filter_all. by left.
  - apply list_filter_iff. intros r. split; [by right | by intros [|]].
Qed.

Lemma filter_status_filter selection df :
  filter_status selection df = filter (λ r, status_selects selection r = true) df.
Proof.
  destruct selection; simpl; [|done..].
  symmetry. by apply filter_all.
Qed.

(** The four steps as one filter. *)
Lemma sidebar_filters_filter clients domains query_types selection df :
  sidebar_filters clients domains query_types selection df
  = filter (λ r, status_selects selection r = true
                 ∧ (query_types = [] ∨ row_QT r ∈ query_types)
                 ∧ (domains = [] ∨ row_top_level_domain r ∈ domains)
                 ∧ (clients = [] ∨ row_hostname r ∈ clients)) df.
Proof.
  unfold sidebar_filters, filter_clients, filter_domains, filter_query_types.
  cbv zeta. rewrite filter_status_filter, !isin_step_filter.
  rewrite !list_filter_filter. apply list_filter_iff. tauto.
Qed.

Lemma status_selects_passes selection r :
  status_selects selection r = true
  ↔ match selection with
    | All => True
    | FilteredOnly => row_is_filtered r = true
    | NotFilteredOnly => row_is_filtered r = false
    end.
Proof. destruct selection; simpl; [done..|apply negb_true_iff]. Qed.

End MoreFilters.

(** X12.  The four sidebar filters together keep a row exactly when it
    passes each of them: for each of the three columns the selection is
    empty or holds the row's value, and the status selection agrees with
    the row's flag. *)
Theorem sidebar_filters_conjunction
    (clients domains query_types : list string) (selection : filter_selection)
    (df : list Row) (r : Row) :
  r ∈ sidebar_filters clients domains query_types selection df
  ↔ r ∈ df ∧ passes clients domains query_types selection r.
Proof.
  rewrite sidebar_filters_filter, list_elem_of_filter, status_selects_passes.
  unfold passes. tauto.
Qed.

(** X13.  Applying the sidebar filters a second time with the same
    selections changes nothing. *)
Theorem sidebar_filters_idempotent
    (clients domains query_types : list string) (selection : filter_selection)
    (df : list Row) :
  sidebar_filters clients domains query_types selection
    (sidebar_filters clients domains query_types selection df)
  = sidebar_filters clients domains query_types selection df.
Proof.
  rewrite !sidebar_filters_filter, list_filter_filter.
  apply list_filter_iff. tauto.
Qed.

(** X14.  The order of the four steps does not matter: taken in the
    opposite order they give the same frame. *)
Theorem sidebar_filters_any_order
    (clients domains query_types : list string) (selection : filter_selection)
    (df : list Row) :
  filter_clients clients
    (filter_domains domains
       (filter_query_types query_types (filter_status selection df)))
  = sidebar_filters clients domains query_types selection df.
Proof.
  rewrite sidebar_filters_filter.
  unfold filter_clients, filter_domains, filter_query_types.
  rewrite filter_status_filter, !isin_step_filter, !list_filter_filter.
  apply list_filter_iff. tauto.
Qed.

(** X15.  The two status selections split a frame: the rows kept by
    "Filtered Only" and those kept by "Not Filtered Only" are together the
    rows of the frame, and no row is kept by both. *)
Theorem filter_status_partition (df : list Row) :
  filter_status FilteredOnly df ++ filter_status NotFilteredOnly df ≡ₚ df
  ∧ length (filter_status FilteredOnly df)
    + length (filter_status NotFilteredOnly df) = length df
  ∧ filter_status FilteredOnly (filter_status NotFilteredOnly df) = [].
Proof.
  assert (filter_status FilteredOnly df ++ filter_status NotFilteredOnly df ≡ₚ df)
    as Hperm.
  { simpl. rewrite <- (filter_app_complement (λ r, row_is_filtered r = true) df) at 3.
    f_equiv. rewrite (list_filter_iff (λ r, negb (row_is_filtered r) = true)
                        (λ r, row_is_filtered r ≠ true)); [done|].
    intros r. by destruct (row_is_filtered r). }
  split; [done|]. split.
  - by rewrite <- length_app, Hperm.
  - clear Hperm. simpl. rewrite list_filter_filter.
    induction df as [|r df IH]; [done|].
    rewrite filter_cons_False; [done|]. by destruct (row_is_filtered r); intros [].
Qed.

(** ** The options of the multiselects *)

Section Options.

Lemma filter_Forall {A} (P : A → Prop) `{∀ x, Decision (P x)} (l : list A) :
  Forall P l → filter P l = l.
Proof.
  induction 1 as [|x l Hx _ IH]; [done|]. by rewrite filter_cons_True, IH.
Qed.

Lemma unique_elem_of x values : x ∈ unique values ↔ x ∈ values.
Proof.
  induction values as [|v rest IH]; simpl; [done|].
  rewrite !elem_of_cons, list_elem_of_filter, IH.
  destruct (decide (x = v)) as [->|Hne]; [split; by left|].
  split.
  - intros [?|[_ ?]]; [by left | by right].
  - intros [?|?]; [by left | by right].
Qed.

Lemma unique_NoDup values : NoDup (unique values).
Proof.
  induction values as [|v rest IH]; simpl; [constructor|].
  constructor; [|by apply NoDup_filter].
  rewrite list_elem_of_filter. by intros [? _].
Qed.

Lemma unique_options_elem_of column df x :
  x ∈ unique_options column df ↔ ∃ r, r ∈ df ∧ column r = x.
Proof.
  unfold unique_options.
  rewrite merge_sort_Permutation, unique_elem_of, list_elem_of_fmap.
  split; intros (r & ? & ?); by exists r.
Qed.

(** A selection taken from the options of a frame that has rows keeps at
    least one row. *)
Lemma isin_step_not_empty column selected df :
  df ≠ [] →
  selected ⊆ unique_options column df →
  (if negb (bool_decide (length selected = 0))
   then isin_rows column selected df else df) ≠ [].
Proof.
  intros Hdf Hsub. rewrite isin_step.
  destruct (decide (selected = [])) as [|Hne]; [done|].
  destruct selected as [|x selected]; [done|].
  assert (x ∈ unique_options column df) as Hx
    by (apply Hsub, list_elem_of_here).
  apply unique_options_elem_of in Hx as (r & Hr & <-).
  intros Hnil.
  assert (r ∈ filter (λ r0, column r0 ∈ column r :: selected) df) as Hin
    by (apply list_elem_of_filter; split; [apply list_elem_of_here | done]).
  rewrite Hnil in Hin. by apply elem_of_nil in Hin.
Qed.

(** Selecting every option keeps every row. *)
Lemma isin_step_all column selected df :
  unique_options column df ⊆ selected →
  (if negb (bool_decide (length selected = 0))
   then isin_rows column selected df else df) = df.
Proof.
  intros Hsub. rewrite isin_step. destruct (decide _); [done|].
  apply filter_Forall, Forall_forall. intros r Hr.
  apply Hsub, unique_options_elem_of. by exists r.
Qed.

End Options.

(** X16.  The options a multiselect offers are the values of its column
    in the current frame: each value once, in ascending order. *)
Theorem unique_options_sorted_set (column : Row → string) (df : list Row) :
  Sorted String.le (unique_options column df)
  ∧ NoDup (unique_options column df)
  ∧ ∀ x : string, x ∈ unique_options column df ↔ ∃ r, r ∈ df ∧ column r = x.
Proof.
  split; [|split].
  - apply (Sorted_merge_sort String.le).
  - unfold unique_options. rewrite merge_sort_Permutation. apply unique_NoDup.
  - apply unique_options_elem_of.
Qed.

(** X17.  The three multiselects cannot empty a frame that has rows, as
    long as each selection is taken from the options offered at its step
    (the values of the column in the frame the step receives). *)
Theorem membership_filters_not_empty
    (clients domains query_types : list string) (df : list Row) :
  df ≠ [] →
  clients ⊆ unique_clients df →
  domains ⊆ unique_domains (filter_clients clients df) →
  query_types ⊆ unique_query_types
                  (filter_domains domains (filter_clients clients df)) →
  membership_filters clients domains query_types df ≠ [].
Proof.
  intros Hdf Hc Hd Hq. unfold membership_filters. cbv zeta.
  apply isin_step_not_empty; [|done].
  apply isin_step_not_empty; [|done].
  by apply isin_step_not_empty.
Qed.

Lemma membership_filters_not_empty_witness :
  membership_filters ["laptop"] ["doubleclick.net"] [] sample_frame ≠ [].
Proof.
  apply (membership_filters_not_empty
           ["laptop"] ["doubleclick.net"] [] sample_frame).
  - discriminate.
  - apply (bool_decide_unpack _). vm_compute. exact I.
  - apply (bool_decide_unpack _). vm_compute. exact I.
  - apply list_subseteq_nil.
Defined.

(** X18.  Selecting every option offered has the effect of selecting
    none: the frame comes back unchanged. *)
Theorem membership_filters_all_options (df : list Row) :
  membership_filters (unique_clients df) (unique_domains df)
    (unique_query_types df) df = df.
Proof.
  unfold membership_filters, filter_clients, filter_domains, filter_query_types.
  cbv zeta.
  rewrite (isin_step_all row_hostname (unique_clients df) df) by done.
  rewrite (isin_step_all row_top_level_domain (unique_domains df) df) by done.
  by rewrite (isin_step_all row_QT (unique_query_types df) df).
Qed.

(** ** The time-range filter *)

Section MoreTimeRange.
Context {R : Type}.
Variable T : R → Z.
Variable date : Z → Z.

Lemma filter_sublist_mono (P Q : R → Prop)
    `{∀ x, Decision (P x)} `{∀ x, Decision (Q x)} (l : list R) :
  (∀ x, P x → Q x) → filter P l `sublist_of` filter Q l.
Proof.
  intros HPQ. induction l as [|x l IH]; [done|].
  destruct (decide (P x)) as [HP|HP].
  - rewrite !filter_cons_True by auto. by constructor.
  - rewrite (filter_cons_False P) by done.
    destruct (decide (Q x)).
    + rewrite filter_cons_True by done. by constructor.
    + by rewrite filter_cons_False.
Qed.

Lemma column_min_le t ts : Forall (λ x, column_min t ts ≤ x)%Z (t :: ts).
Proof.
  unfold column_min. revert t. induction ts as [|u ts IH]; intros t; simpl.
  - by repeat constructor.
  - specialize (IH (Z.min t u)). apply Forall_cons in IH as [Hm Hts].
    repeat constructor; [lia..|done].
Qed.

Lemma column_max_ge t ts : Forall (λ x, x ≤ column_max t ts)%Z (t :: ts).
Proof.
  unfold column_max. revert t. induction ts as [|u ts IH]; intros t; simpl.
  - by repeat constructor.
  - specialize (IH (Z.max t u)). apply Forall_cons in IH as [Hm Hts].
    repeat constructor; [lia..|done].
Qed.

End MoreTimeRange.

(** X19.  The three quick ranges are nested and only drop rows: at one
    clock reading, the rows of the last 24 hours are among those of the
    last week, these among those of the last month, and these among the
    rows of the frame, all in their order. *)
Theorem time_filter_nested {R : Type} (T : R → Z) (date : Z → Z)
    (now : Z) (date_range : list Z) (df : list R) :
  time_filter T date Last24Hours now date_range df
    `sublist_of` time_filter T date LastWeek now date_range df
  ∧ time_filter T date LastWeek now date_range df
      `sublist_of` time_filter T date LastMonth now date_range df
  ∧ time_filter T date LastMonth now date_range df `sublist_of` df.
Proof.
  simpl. split; [|split].
  - apply filter_sublist_mono. intros r. unfold timedelta_hours, timedelta_days. lia.
  - apply filter_sublist_mono. intros r. unfold timedelta_days. lia.
  - apply sublist_filter.
Qed.

(** X20.  The custom range as the date input first shows it, from the day
    of the earliest row to the day of the latest, keeps every row; this
    needs only that a later instant never falls on an earlier day. *)
Theorem time_filter_custom_default {R : Type} (T : R → Z) (date : Z → Z)
    (now : Z) (df : list R) :
  (∀ t1 t2 : Z, (t1 ≤ t2)%Z → (date t1 ≤ date t2)%Z) →
  time_filter T date Custom now (default_date_range T date df) df = df.
Proof.
  intros Hmono. unfold time_filter, default_date_range.
  destruct df as [|r df]; [done|].
  rewrite bool_decide_eq_true_2 by (simpl; lia).
  rewrite fmap_cons. apply filter_Forall.
  pose proof (column_min_le (T r) (T <$> df)) as Hmin.
  pose proof (column_max_ge (T r) (T <$> df)) as Hmax.
  rewrite <- fmap_cons in Hmin, Hmax.
  rewrite Forall_fmap in Hmin, Hmax.
  rewrite Forall_forall in Hmin, Hmax. apply Forall_forall.
  intros r' Hr'. split; apply Hmono; [by apply Hmin | by apply Hmax].
Qed.

Lemma utc_date_mono (t1 t2 : Z) : (t1 ≤ t2)%Z → (utc_date t1 ≤ utc_date t2)%Z.
Proof. intros H. unfold utc_date. by apply Z.div_le_mono. Qed.

Lemma time_filter_custom_default_witness :
  time_filter id utc_date Custom 0
    (default_date_range id utc_date sample_instants) sample_instants
  = sample_instants.
Proof.
  apply (time_filter_custom_default id utc_date 0 sample_instants).
  exact utc_date_mono.
Defined.

(** ** The counts of the overview *)

Section Overview.

Lemma blocked_length df : blocked df = Z.of_nat (length (blocked_df df)).
Proof.
  unfold blocked, blocked_df. induction df as [|r df IH]; [done|].
  simpl foldr. rewrite IH. destruct (row_is_filtered r) eqn:E.
  - rewrite filter_cons_True by done. simpl length. simpl Z.b2z. lia.
  - rewrite filter_cons_False by congruence. simpl Z.b2z. lia.
Qed.

Lemma unique_length values : length (unique values) ≤ length values.
Proof.
  induction values as [|v rest IH]; simpl; [done|].
  pose proof (length_filter (λ w, w ≠ v) (unique rest)). lia.
Qed.

End Overview.

(** X21.  The number of blocked queries shown in the overview is the
    number of rows of the frame of blocked queries of the filtering tab
    and of the rows "Filtered Only" keeps; it lies between zero and the
    total.  The number of distinct values of a column is at most the
    total, and zero only for a frame without rows. *)
Theorem overview_counts (column : Row → string) (df : list Row) :
  blocked df = Z.of_nat (length (blocked_df df))
  ∧ blocked_df df = filter_status FilteredOnly df
  ∧ (0 ≤ blocked df ≤ total_queries df)%Z
  ∧ (0 ≤ nunique column df ≤ total_queries df)%Z
  ∧ (nunique column df = 0%Z ↔ df = []).
Proof.
  split; [apply blocked_length|]. split; [done|]. split; [|split].
  - rewrite blocked_length. unfold total_queries, blocked_df.
    pose proof (length_filter (λ r, row_is_filtered r = true) df). lia.
  - unfold nunique, total_queries.
    pose proof (unique_length (column <$> df)) as H.
    rewrite length_fmap in H. lia.
  - unfold nunique. destruct df; simpl; [done|]. split; [lia|done].
Qed.
